(** * Credential resolution and key rotation of the environment service

    A shallow embedding of [packages/shared/lib/services/environment.service.ts]:
    the table [_nango_environments] is a list of rows, the module-level
    [hashLocalCache] is a finite map, and every [async] method is a computation
    in a small state-and-exception monad over the state of the process and of
    the database. *)

From Stdlib Require Import Ascii ZArith.
From Stdlib Require Strings.String.
From stdpp Require Import base option list strings gmap.

Local Open Scope Z_scope.

(** ** JavaScript strings *)

Module JsString.

Definition startsWith (s p : string) : bool := Stdlib.Strings.String.prefix p s.

Definition drop (n : nat) (s : string) : string :=
  Stdlib.Strings.String.substring n (Stdlib.Strings.String.length s - n) s.

Definition take (n : nat) (s : string) : string :=
  Stdlib.Strings.String.substring 0 n s.

(** [s.replace(pat, by)] with a string pattern: only the first occurrence
    is replaced. *)
Definition replace (s pat by_ : string) : string :=
  match Stdlib.Strings.String.index 0 pat s with
  | Some i =>
      take i s +:+ by_ +:+ drop (i + Stdlib.Strings.String.length pat) s
  | None => s
  end.

Definition lower_ascii (c : ascii) : ascii :=
  let n := nat_of_ascii c in
  if (Nat.leb 65 n && Nat.leb n 90)%bool then ascii_of_nat (n + 32) else c.

(** [s.toLowerCase()] on the ASCII range, which is where the names of
    process variables live. *)
Fixpoint toLowerCase (s : string) : string :=
  match s with
  | EmptyString => EmptyString
  | String c r => String (lower_ascii c) (toLowerCase r)
  end.

(** Truthiness of a string: only the empty string is falsy. *)
Definition truthy (s : string) : bool := negb (bool_decide (s = EmptyString)).

End JsString.

(** ** Rows *)

(** [models/Admin.ts] is not part of the sources at hand; an account is used
    here only through its [id], on which the environments are joined. *)
Module Account.
Record t := mk { id : Z; uuid : string; name : string }.
End Account.

(** A row of [_nango_environments], with the columns the service reads and
    writes. A column that the service sets to [null] is an [option]. *)
Module Environment.
Record t := mk {
  id : Z;
  uuid : string;
  account_id : Z;
  name : string;
  secret_key : option string;
  secret_key_iv : option string;
  secret_key_tag : option string;
  secret_key_hashed : option string;
  pending_secret_key : option string;
  pending_secret_key_iv : option string;
  pending_secret_key_tag : option string;
  public_key : option string;
  pending_public_key : option string;
  callback_url : option string;
  webhook_url : option string;
  hmac_enabled : bool;
  hmac_key : option string;
  always_send_webhook : bool;
  send_auth_webhook : bool;
  slack_notifications : bool
  }.

Definition set_secret (k iv tag : option string) (e : t) : t :=
  mk (id e) (uuid e) (account_id e) (name e)
     k iv tag (secret_key_hashed e)
     (pending_secret_key e) (pending_secret_key_iv e) (pending_secret_key_tag e)
     (public_key e) (pending_public_key e)
     (callback_url e) (webhook_url e) (hmac_enabled e) (hmac_key e)
     (always_send_webhook e) (send_auth_webhook e) (slack_notifications e).

Definition set_secret_key_hashed (h : option string) (e : t) : t :=
  mk (id e) (uuid e) (account_id e) (name e)
     (secret_key e) (secret_key_iv e) (secret_key_tag e) h
     (pending_secret_key e) (pending_secret_key_iv e) (pending_secret_key_tag e)
     (public_key e) (pending_public_key e)
     (callback_url e) (webhook_url e) (hmac_enabled e) (hmac_key e)
     (always_send_webhook e) (send_auth_webhook e) (slack_notifications e).

Definition set_pending_secret_key (k : option string) (e : t) : t :=
  mk (id e) (uuid e) (account_id e) (name e)
     (secret_key e) (secret_key_iv e) (secret_key_tag e) (secret_key_hashed e)
     k (pending_secret_key_iv e) (pending_secret_key_tag e)
     (public_key e) (pending_public_key e)
     (callback_url e) (webhook_url e) (hmac_enabled e) (hmac_key e)
     (always_send_webhook e) (send_auth_webhook e) (slack_notifications e).

Definition set_pending_secret (k iv tag : option string) (e : t) : t :=
  mk (id e) (uuid e) (account_id e) (name e)
     (secret_key e) (secret_key_iv e) (secret_key_tag e) (secret_key_hashed e)
     k iv tag
     (public_key e) (pending_public_key e)
     (callback_url e) (webhook_url e) (hmac_enabled e) (hmac_key e)
     (always_send_webhook e) (send_auth_webhook e) (slack_notifications e).

Definition set_public_key (k : option string) (e : t) : t :=
  mk (id e) (uuid e) (account_id e) (name e)
     (secret_key e) (secret_key_iv e) (secret_key_tag e) (secret_key_hashed e)
     (pending_secret_key e) (pending_secret_key_iv e) (pending_secret_key_tag e)
     k (pending_public_key e)
     (callback_url e) (webhook_url e) (hmac_enabled e) (hmac_key e)
     (always_send_webhook e) (send_auth_webhook e) (slack_notifications e).

Definition set_pending_public_key (k : option string) (e : t) : t :=
  mk (id e) (uuid e) (account_id e) (name e)
     (secret_key e) (secret_key_iv e) (secret_key_tag e) (secret_key_hashed e)
     (pending_secret_key e) (pending_secret_key_iv e) (pending_secret_key_tag e)
     (public_key e) k
     (callback_url e) (webhook_url e) (hmac_enabled e) (hmac_key e)
     (always_send_webhook e) (send_auth_webhook e) (slack_notifications e).

#[global] Instance eq_dec : EqDecision t.
Proof. solve_decision. Defined.
End Environment.

(** ** Statements sent to the database *)

(** The column sets of the [update] statements of the service, one
    constructor per shape of the object handed to [knex.update]. *)
Inductive Columns :=
| PendingSecretKey (v : option string)
    (* update({ pending_secret_key }) *)
| WholeRow (e : Environment.t)
    (* update(encryptedEnvironment) *)
| ClearPendingSecret
    (* update({ pending_secret_key: null, pending_secret_key_iv: null,
                pending_secret_key_tag: null }) *)
| PendingPublicKey (v : option string)
    (* update({ pending_public_key }) *)
| PromoteSecret (k iv tag hashed : option string)
    (* update({ secret_key, secret_key_iv, secret_key_tag, secret_key_hashed,
                pending_secret_key: null, pending_secret_key_iv: null,
                pending_secret_key_tag: null }) *)
| PromotePublic (k : option string).
    (* update({ public_key, pending_public_key: null }) *)

Definition assign (c : Columns) (e : Environment.t) : Environment.t :=
  match c with
  | PendingSecretKey v => Environment.set_pending_secret_key v e
  | WholeRow e' => e'
  | ClearPendingSecret => Environment.set_pending_secret None None None e
  | PendingPublicKey v => Environment.set_pending_public_key v e
  | PromoteSecret k iv tag hashed =>
      Environment.set_pending_secret None None None
        (Environment.set_secret_key_hashed hashed (Environment.set_secret k iv tag e))
  | PromotePublic k =>
      Environment.set_pending_public_key None (Environment.set_public_key k e)
  end.

(** ** Errors *)

Inductive exn :=
| StoreUnavailable     (* the query builder rejects: the database cannot be reached *)
| DecryptionFailure    (* the authentication tag of a ciphertext does not verify *)
| TypeError.           (* a [null] reaches a primitive that wants a string *)

Inductive Result (A : Type) :=
| Ok (a : A)
| Throw (e : exn).
Arguments Ok {A} a.
Arguments Throw {A} e.

(** ** State of the process and of the database *)

Record World := mkWorld {
  db_up : bool;                          (* does the database answer? *)
  environments : list Environment.t;     (* table _nango_environments *)
  accounts : list Account.t;             (* table _nango_accounts *)
  hashLocalCache : gmap string string;   (* const hashLocalCache = new Map() *)
  derivations : nat;                     (* calls of pbkdf2 so far *)
  db_calls : nat;                        (* statements sent so far *)
  writes : list (Z * Columns);           (* update statements run, oldest first *)
  reported : list exn;                   (* errorManager.report, newest first *)
  entropy : nat                          (* random draws so far *)
}.

Definition set_environments (l : list Environment.t) (w : World) : World :=
  mkWorld (db_up w) l (accounts w) (hashLocalCache w) (derivations w)
          (db_calls w) (writes w) (reported w) (entropy w).
Definition set_hashLocalCache (c : gmap string string) (w : World) : World :=
  mkWorld (db_up w) (environments w) (accounts w) c (derivations w)
          (db_calls w) (writes w) (reported w) (entropy w).
Definition set_derivations (n : nat) (w : World) : World :=
  mkWorld (db_up w) (environments w) (accounts w) (hashLocalCache w) n
          (db_calls w) (writes w) (reported w) (entropy w).
Definition set_db_calls (n : nat) (w : World) : World :=
  mkWorld (db_up w) (environments w) (accounts w) (hashLocalCache w) (derivations w)
          n (writes w) (reported w) (entropy w).
Definition set_writes (l : list (Z * Columns)) (w : World) : World :=
  mkWorld (db_up w) (environments w) (accounts w) (hashLocalCache w) (derivations w)
          (db_calls w) l (reported w) (entropy w).
Definition set_reported (l : list exn) (w : World) : World :=
  mkWorld (db_up w) (environments w) (accounts w) (hashLocalCache w) (derivations w)
          (db_calls w) (writes w) l (entropy w).
Definition set_entropy (n : nat) (w : World) : World :=
  mkWorld (db_up w) (environments w) (accounts w) (hashLocalCache w) (derivations w)
          (db_calls w) (writes w) (reported w) n.

(** ** The monad of [async] methods *)

Definition M (A : Type) : Type := World -> Result A * World.

Definition ret {A} (a : A) : M A := fun w => (Ok a, w).

Definition bind {A B} (c : M A) (k : A -> M B) : M B :=
  fun w =>
    match c w with
    | (Ok a, w') => k a w'
    | (Throw e, w') => (Throw e, w')
    end.

Definition throw {A} (e : exn) : M A := fun w => (Throw e, w).

(** [try { c } catch (e) { h e }] *)
Definition try_catch {A} (c : M A) (h : exn -> M A) : M A :=
  fun w =>
    match c w with
    | (Ok a, w') => (Ok a, w')
    | (Throw e, w') => h e w'
    end.

Definition gets {A} (f : World -> A) : M A := fun w => (Ok (f w), w).
Definition modify (f : World -> World) : M unit := fun w => (Ok tt, f w).

Declare Scope async_scope.
Delimit Scope async_scope with async.
Notation "x <- c ;; k" := (bind c (fun x => k))
  (at level 100, c at next level, right associativity) : async_scope.
Notation "c ;; k" := (bind c (fun _ => k))
  (at level 100, right associativity) : async_scope.
Local Open Scope async_scope.

(** ** What the service imports *)

(** The values the module takes from its surroundings: [isCloud] of
    [@nangohq/utils], [process.env] (names in the order of [Object.keys]),
    [ENCRYPTION_KEY] and [pbkdf2] of the encryption manager, [uuid.v4], and
    the cipher behind the encryption manager. [pbkdf2 key salt] stands for
    [(await pbkdf2(key, salt, 310000, 32, 'sha256')).toString('base64')];
    [uuid_v4] and [encrypt] take the index of the random draw they consume. *)
Class Platform := {
  isCloud : bool;
  process_env : list (string * string);
  ENCRYPTION_KEY : option string;
  pbkdf2 : string -> string -> string;
  uuid_v4 : nat -> string;
  encrypt : nat -> string -> string * string * string;
  decrypt : string -> string -> string -> option string
}.

Section Service.
Context {P : Platform}.

(** *** The database *)

Definition counted (w : World) : World := set_db_calls (S (db_calls w)) w.

(** Every awaited statement: it is counted, and it rejects when the database
    does not answer. *)
Definition db_statement {A} (run : World -> A * World) : M A :=
  fun w =>
    if db_up w then (let '(a, w') := run (counted w) in (Ok a, w'))
    else (Throw StoreUnavailable, counted w).

(** [await db.knex.select(..).from(TABLE).where(..)] *)
Definition db_select {A} (q : list Environment.t -> list Account.t -> A) : M A :=
  db_statement (fun w => (q (environments w) (accounts w), w)).

Definition update_where_id (id : Z) (c : Columns) (envs : list Environment.t)
  : list Environment.t :=
  (fun e => if decide (Environment.id e = id) then assign c e else e) <$> envs.

(** [await db.knex.from(TABLE).where({ id }).update(c)] *)
Definition db_update (id : Z) (c : Columns) : M unit :=
  db_statement (fun w =>
    (tt, set_writes (writes w ++ [(id, c)])
           (set_environments (update_where_id id c (environments w)) w))).

Definition where_id (id : Z) (envs : list Environment.t) : list Environment.t :=
  filter (fun e => Environment.id e = id) envs.

(** The rows of [_nango_environments] joined with [_nango_accounts] on
    [_nango_accounts.id = _nango_environments.account_id]. *)
Definition joined (envs : list Environment.t) (accts : list Account.t)
  : list (Account.t * Environment.t) :=
  e ← envs;
  (fun a => (a, e)) <$> filter (fun a => Account.id a = Environment.account_id e) accts.

(** *** Random draws *)

Definition draw : M nat :=
  fun w => (Ok (entropy w), set_entropy (S (entropy w)) w).

(** *** errorManager.report *)

Definition report (e : exn) : M unit :=
  modify (fun w => set_reported (e :: reported w) w).

(** *** Hashing *)

Definition encryption_key : option string :=
  match ENCRYPTION_KEY with
  | Some K => if JsString.truthy K then Some K else None
  | None => None
  end.

(** [hashSecretKey], lines 495-501. *)
Definition hashSecretKey (key : string) : M string :=
  match encryption_key with
  | None => ret key
  | Some K =>
      modify (fun w => set_derivations (S (derivations w)) w);;
      ret (pbkdf2 key K)
  end.

(** What [hashSecretKey] answers when the value it is handed is [null] at
    run time (the [!] of [decrypted.pending_secret_key!] is erased): without
    an encryption key the [null] is returned as it is, with one the
    derivation rejects a password that is not a string. *)
Definition hashSecretKey_null : M (option string) :=
  match encryption_key with
  | None => ret None
  | Some _ => throw TypeError
  end.

(** The value of [hashSecretKey key], without the effects. *)
Definition digest (key : string) : string :=
  match encryption_key with
  | None => key
  | Some K => pbkdf2 key K
  end.

(** *** The encryption manager *)

(** Modelled from the spec: [encryptionManager.encryptEnvironment] is defined
    in utils/encryption.manager.ts, which is not among the sources. Spec 4.1:
    it encrypts the designated sensitive fields (secret key, pending secret
    key); each encrypted field carries its own initialization vector and
    authentication tag. An absent field has nothing to encrypt and its
    columns stay as they are. *)
Definition encryptEnvironment (e : Environment.t) : M Environment.t :=
  e1 <- match Environment.secret_key e with
        | Some plain =>
            n <- draw;;
            let '(c, iv, tag) := encrypt n plain in
            ret (Environment.set_secret (Some c) (Some iv) (Some tag) e)
        | None => ret e
        end;;
  match Environment.pending_secret_key e1 with
  | Some plain =>
      n <- draw;;
      let '(c, iv, tag) := encrypt n plain in
      ret (Environment.set_pending_secret (Some c) (Some iv) (Some tag) e1)
  | None => ret e1
  end.

(** What [encryptEnvironment] returns when the next random draw is the
    [n]-th, and how many draws it takes. *)
Definition sealed (n : nat) (e : Environment.t) : Environment.t :=
  let e1 := match Environment.secret_key e with
            | Some plain =>
                let '(c, iv, tag) := encrypt n plain in
                Environment.set_secret (Some c) (Some iv) (Some tag) e
            | None => e
            end in
  let n1 := match Environment.secret_key e with Some _ => S n | None => n end in
  match Environment.pending_secret_key e1 with
  | Some plain =>
      let '(c, iv, tag) := encrypt n1 plain in
      Environment.set_pending_secret (Some c) (Some iv) (Some tag) e1
  | None => e1
  end.

Definition draws (e : Environment.t) : nat :=
  (match Environment.secret_key e with Some _ => 1 | None => 0 end +
   match Environment.pending_secret_key e with Some _ => 1 | None => 0 end)%nat.

(** One sensitive field with its two sibling columns: [None] when the tag
    does not verify, the field as it is when it carries no vector or tag. *)
Definition decrypt_field (k iv tag : option string) : option (option string) :=
  match k, iv, tag with
  | Some c, Some i, Some t =>
      match decrypt c i t with
      | Some plain => Some (Some plain)
      | None => None
      end
  | _, _, _ => Some k
  end.

(** The decrypted view of a stored row, if its tags verify. *)
Definition decrypted_view (e : Environment.t) : option Environment.t :=
  match decrypt_field (Environment.secret_key e) (Environment.secret_key_iv e)
                      (Environment.secret_key_tag e),
        decrypt_field (Environment.pending_secret_key e)
                      (Environment.pending_secret_key_iv e)
                      (Environment.pending_secret_key_tag e) with
  | Some s, Some p =>
      Some (Environment.set_pending_secret_key p
              (Environment.set_secret s (Environment.secret_key_iv e)
                 (Environment.secret_key_tag e) e))
  | _, _ => None
  end.

(** Modelled from the spec: [encryptionManager.decryptEnvironment] is defined
    in utils/encryption.manager.ts, which is not among the sources. Spec 4.1
    and 7: the inverse of the encryption of the sensitive fields; a tag that
    does not verify is a hard failure, never a corrupted plaintext. *)
Definition decryptEnvironment (e : Environment.t) : M Environment.t :=
  match decrypted_view e with
  | Some d => ret d
  | None => throw DecryptionFailure
  end.

(** *** The service *)

(** The three shapes of the argument of [getAccountAndEnvironment]. *)
Inductive Opts :=
| ByPublicKey (publicKey : string)
| BySecretKey (secretKey : string)
| ByAccountAndName (accountId : Z) (envName : string).

Definition Resolved : Type := Account.t * Environment.t.

(** [getEnvironmentsByAccountId], lines 19-37. *)
Definition getEnvironmentsByAccountId (account_id : Z) : M (list string) :=
  try_catch
    (result <- db_select (fun envs _ =>
       Environment.name <$> filter (fun e => Environment.account_id e = account_id) envs);;
     ret result)
    (fun e => report e;; ret []).

(** [getAccountAndEnvironment], lines 126-162. The last [else] of the source
    (no [accountId]) has no counterpart: [Opts] has three shapes. *)
Definition getAccountAndEnvironment (opts : Opts) : M (option Resolved) :=
  match opts with
  | BySecretKey secretKey =>
      cached <- gets (fun w => hashLocalCache w !! secretKey);;
      hash <- match cached with
              | Some h => if JsString.truthy h then ret h else hashSecretKey secretKey
              | None => hashSecretKey secretKey
              end;;
      res <- db_select (fun envs accts =>
               head (filter (fun r => Environment.secret_key_hashed r.2 = Some hash)
                            (joined envs accts)));;
      match res with
      | None => ret None
      | Some (account, environment) =>
          (if JsString.truthy hash
           then modify (fun w => set_hashLocalCache (<[secretKey := hash]> (hashLocalCache w)) w)
           else ret tt);;
          d <- decryptEnvironment environment;;
          ret (Some (account, d))
      end
  | ByPublicKey publicKey =>
      res <- db_select (fun envs accts =>
               head (filter (fun r => Environment.public_key r.2 = Some publicKey)
                            (joined envs accts)));;
      match res with
      | None => ret None
      | Some (account, environment) =>
          d <- decryptEnvironment environment;;
          ret (Some (account, d))
      end
  | ByAccountAndName accountId envName =>
      res <- db_select (fun envs accts =>
               head (filter (fun r => Environment.account_id r.2 = accountId
                                      ∧ Environment.name r.2 = envName)
                            (joined envs accts)));;
      match res with
      | None => ret None
      | Some (account, environment) =>
          d <- decryptEnvironment environment;;
          ret (Some (account, d))
      end
  end.

(** [process.env[name]] *)
Definition process_env_get (name : string) : option string :=
  snd <$> find (fun kv => bool_decide (kv.1 = name)) process_env.

(** [Object.keys(process.env).filter((key) => key.startsWith(prefix))] *)
Definition environmentVariables (prefix : string) : list string :=
  List.filter (fun key => JsString.startsWith key prefix) (fst <$> process_env).

(** The body of the [for] loop of the two resolvers once a variable holds
    the presented key (lines 50-58 and 111-118). *)
Definition resolveFromVariable (prefix environmentVariable : string)
  : M (option Resolved) :=
  let envName :=
    JsString.toLowerCase (JsString.replace environmentVariable prefix EmptyString) in
  (* This key is set dynamically and does not exists in database *)
  env <- db_select (fun envs _ =>
           Environment.account_id <$>
             head (filter (fun e => Environment.name e = envName) envs));;
  match env with
  | None => ret None
  | Some account_id => getAccountAndEnvironment (ByAccountAndName account_id envName)
  end.

(** The [for] loop of the two resolvers (lines 43-59 and 105-119): variables
    whose value differs from the key are skipped, the first one that holds
    the key decides; [otherwise] is the statement after the loop. *)
Fixpoint forEnvironmentVariables (prefix key : string) (vars : list string)
    (otherwise : M (option Resolved)) : M (option Resolved) :=
  match vars with
  | [] => otherwise
  | environmentVariable :: rest =>
      if bool_decide (process_env_get environmentVariable = Some key)
      then resolveFromVariable prefix environmentVariable
      else forEnvironmentVariables prefix key rest otherwise
  end.

(** [getAccountAndEnvironmentBySecretKey], lines 39-64. *)
Definition getAccountAndEnvironmentBySecretKey (secretKey : string)
  : M (option Resolved) :=
  if negb isCloud then
    forEnvironmentVariables "NANGO_SECRET_KEY_" secretKey
      (environmentVariables "NANGO_SECRET_KEY_")
      (getAccountAndEnvironment (BySecretKey secretKey))
  else getAccountAndEnvironment (BySecretKey secretKey).

(** [getAccountAndEnvironmentByPublicKey], lines 101-124. *)
Definition getAccountAndEnvironmentByPublicKey (publicKey : string)
  : M (option Resolved) :=
  if negb isCloud then
    forEnvironmentVariables "NANGO_PUBLIC_KEY_" publicKey
      (environmentVariables "NANGO_PUBLIC_KEY_")
      (getAccountAndEnvironment (ByPublicKey publicKey))
  else getAccountAndEnvironment (ByPublicKey publicKey).

(** [getIdByUuid], lines 164-172. *)
Definition getIdByUuid (uuid : string) : M (option Z) :=
  result <- db_select (fun envs _ =>
    Environment.id <$> filter (fun e => Environment.uuid e = uuid) envs);;
  ret (head result).

(** [getById], lines 174-194. *)
Definition getById (id : Z) : M (option Environment.t) :=
  try_catch
    (result <- db_select (fun envs _ => where_id id envs);;
     match result with
     | [] => ret None
     | row :: _ => d <- decryptEnvironment row;; ret (Some d)
     end)
    (fun e => report e;; ret None).

(** [getRawById], lines 196-216. *)
Definition getRawById (id : Z) : M (option Environment.t) :=
  try_catch
    (result <- db_select (fun envs _ => where_id id envs);;
     ret (head result))
    (fun e => report e;; ret None).

(** [getByEnvironmentName], lines 218-226. *)
Definition getByEnvironmentName (accountId : Z) (name : string)
  : M (option Environment.t) :=
  result <- db_select (fun envs _ =>
    filter (fun e => Environment.account_id e = accountId ∧ Environment.name e = name) envs);;
  match result with
  | [] => ret None
  | row :: _ => d <- decryptEnvironment row;; ret (Some d)
  end.

(** [getEnvironmentName], lines 257-265. *)
Definition getEnvironmentName (id : Z) : M (option string) :=
  result <- db_select (fun envs _ => Environment.name <$> where_id id envs);;
  ret (head result).

(** [rotateSecretKey], lines 391-408. *)
Definition rotateSecretKey (id : Z) : M (option string) :=
  environment <- getById id;;
  match environment with
  | None => ret None
  | Some environment =>
      n <- draw;;
      let pending_secret_key := uuid_v4 n in
      db_update id (PendingSecretKey (Some pending_secret_key));;
      let environment :=
        Environment.set_pending_secret_key (Some pending_secret_key) environment in
      encryptedEnvironment <- encryptEnvironment environment;;
      db_update id (WholeRow encryptedEnvironment);;
      ret (Some pending_secret_key)
  end.

(** [rotatePublicKey], lines 410-416. *)
Definition rotatePublicKey (id : Z) : M (option string) :=
  n <- draw;;
  let pending_public_key := uuid_v4 n in
  db_update id (PendingPublicKey (Some pending_public_key));;
  ret (Some pending_public_key).

(** [revertSecretKey], lines 418-432. *)
Definition revertSecretKey (id : Z) : M (option string) :=
  environment <- getById id;;
  match environment with
  | None => ret None
  | Some environment =>
      db_update id ClearPendingSecret;;
      ret (Environment.secret_key environment)
  end.

(** [revertPublicKey], lines 434-444. *)
Definition revertPublicKey (id : Z) : M (option string) :=
  environment <- getById id;;
  match environment with
  | None => ret None
  | Some environment =>
      db_update id (PendingPublicKey None);;
      ret (Environment.public_key environment)
  end.

(** [activateSecretKey], lines 446-474. The argument of [update] is built
    before the statement runs, so the hash is derived first. *)
Definition activateSecretKey (id : Z) : M bool :=
  environment <- getRawById id;;
  match environment with
  | None => ret false
  | Some environment =>
      decrypted <- decryptEnvironment environment;;
      hashed <- match Environment.pending_secret_key decrypted with
                | Some pending => h <- hashSecretKey pending;; ret (Some h)
                | None => hashSecretKey_null
                end;;
      db_update id (PromoteSecret (Environment.pending_secret_key environment)
                                  (Environment.pending_secret_key_iv environment)
                                  (Environment.pending_secret_key_tag environment)
                                  hashed);;
      updatedEnvironment <- getById id;;
      match updatedEnvironment with
      | None => ret false
      | Some _ => ret true
      end
  end.

(** [activatePublicKey], lines 476-492. *)
Definition activatePublicKey (id : Z) : M bool :=
  environment <- getById id;;
  match environment with
  | None => ret false
  | Some environment =>
      db_update id (PromotePublic (Environment.pending_public_key environment));;
      ret true
  end.

(** [rotateKey], lines 355-365. *)
Definition rotateKey (id : Z) (type : string) : M (option string) :=
  if bool_decide (type = "secret") then rotateSecretKey id
  else if bool_decide (type = "public") then rotatePublicKey id
  else ret None.

(** [revertKey], lines 367-377. *)
Definition revertKey (id : Z) (type : string) : M (option string) :=
  if bool_decide (type = "secret") then revertSecretKey id
  else if bool_decide (type = "public") then revertPublicKey id
  else ret None.

(** [activateKey], lines 379-389. *)
Definition activateKey (id : Z) (type : string) : M bool :=
  if bool_decide (type = "secret") then activateSecretKey id
  else if bool_decide (type = "public") then activatePublicKey id
  else ret false.

End Service.

(** ** A small deployment, for running the service on concrete inputs *)

Module Sample.

Fixpoint uuid_v4 (n : nat) : string :=
  match n with
  | O => "0f8fad5b"
  | S m => String "7" (uuid_v4 m)
  end.

Definition encrypt (n : nat) (plain : string) : string * string * string :=
  (String "#" plain, uuid_v4 n, "tag").

Definition decrypt (c iv tag : string) : option string :=
  match c with
  | String "#" plain => if bool_decide (tag = "tag") then Some plain else None
  | _ => None
  end.

Definition pbkdf2 (key salt : string) : string := "H(" +:+ key +:+ "," +:+ salt +:+ ")".

(** Managed cloud, master key configured. *)
Definition cloud : Platform :=
  Build_Platform true [] (Some "master") pbkdf2 uuid_v4 encrypt decrypt.

(** Self-hosted, with keys set through the process environment. *)
Definition selfHosted : Platform :=
  Build_Platform false
    [("PATH", "/usr/bin");
     ("NANGO_SECRET_KEY_DEV", "abc123");
     ("NANGO_SECRET_KEY_PROD", "xyz789");
     ("NANGO_SECRET_KEY_STAGING", "stg456");
     ("NANGO_PUBLIC_KEY_STAGING", "pub456")]
    (Some "master") pbkdf2 uuid_v4 encrypt decrypt.

Definition acme : Account.t := Account.mk 1 "acc-1" "acme".
Definition globex : Account.t := Account.mk 2 "acc-2" "globex".

(** A row whose secret key is stored encrypted and that has no rotation
    pending. *)
Definition row (id account_id : Z) (name secret public : string) : Environment.t :=
  Environment.mk id ("env-" +:+ name) account_id name
    (Some (String "#" secret)) (Some "iv") (Some "tag") (Some (pbkdf2 secret "master"))
    None None None
    (Some public) None
    None None false None false false false.

Definition dev : Environment.t := row 1 1 "dev" "sk-dev" "pk-dev".
Definition prod : Environment.t := row 2 2 "prod" "sk-prod" "pk-prod".

Definition world (up : bool) (envs : list Environment.t) : World :=
  mkWorld up envs [acme; globex] ∅ 0 0 [] [] 0.

End Sample.


(** ** Vocabulary of the statements *)

Section Vocabulary.
Context {P : Platform}.

(** Decrypting what was encrypted gives the plaintext back (spec 8, round
    trip of the sensitive fields). *)
Definition cipher_roundtrip : Prop :=
  forall (n : nat) (plain : string),
    decrypt (encrypt n plain).1.1 (encrypt n plain).1.2 (encrypt n plain).2 = Some plain.

(** The cache only ever holds the hash of its key. *)
Definition cache_sound (w : World) : Prop :=
  forall key h, hashLocalCache w !! key = Some h -> h = digest key.

(** The first row with the given id, as [result[0]] of a select by id. *)
Definition row_of (id : Z) (w : World) : option Environment.t :=
  head (where_id id (environments w)).

(** The variable at which the loop of the resolver stops, if any. *)
Definition matching_variable (prefix key : string) : option string :=
  find (fun v => bool_decide (process_env_get v = Some key)) (environmentVariables prefix).

(** Is the override of the self-hosted mode taken for this key? *)
Definition overridden (prefix key : string) : Prop :=
  isCloud = false ∧ is_Some (matching_variable prefix key).

(** The world after [hashSecretKey] ran once. *)
Definition derived (w : World) : World :=
  match encryption_key with
  | Some _ => set_derivations (S (derivations w)) w
  | None => w
  end.

(** The environment name a variable of the process stands for. *)
Definition envName_of (prefix environmentVariable : string) : string :=
  JsString.toLowerCase (JsString.replace environmentVariable prefix EmptyString).

(** The table after every row with the given id was overwritten. *)
Definition replace_id (id : Z) (row : Environment.t) (envs : list Environment.t)
  : list Environment.t :=
  (fun e => if decide (Environment.id e = id) then row else e) <$> envs.

End Vocabulary.

(** ** The rest of the service *)

(** The columns that an [insert] naming only [account_id] and [name] leaves
    to the schema of [_nango_environments] (the migrations are not among the
    sources): the row of defaults, given the index of the next random draw
    and the rows already there. *)
Class Schema := {
  column_defaults : nat -> list Environment.t -> Environment.t
}.

Section Administration.
Context {P : Platform} {D : Schema}.

(** [getAccountIdFromEnvironment], lines 66-74. *)
Definition getAccountIdFromEnvironment (environment_id : Z) : M (option Z) :=
  result <- db_select (fun envs _ =>
    Environment.account_id <$> where_id environment_id envs);;
  ret (head result).

(** [getAccountFromEnvironment], lines 76-85. *)
Definition getAccountFromEnvironment (environment_id : Z) : M (option Account.t) :=
  result <- db_select (fun envs accts =>
    head (filter (fun r => Environment.id r.2 = environment_id) (joined envs accts)));;
  ret (fst <$> result).

(** [getEnvironmentIdForAccountAssumingProd], lines 272-280. *)
Definition getEnvironmentIdForAccountAssumingProd (accountId : Z) : M (option Z) :=
  result <- db_select (fun envs _ =>
    Environment.id <$>
      filter (fun e => Environment.account_id e = accountId ∧ Environment.name e = "prod")
             envs);;
  ret (head result).

(** [getSlackNotificationsEnabled], lines 306-314. *)
Definition getSlackNotificationsEnabled (environmentId : Z) : M (option bool) :=
  result <- db_select (fun envs _ =>
    Environment.slack_notifications <$> where_id environmentId envs);;
  ret (head result).

(** The row that [insert({ account_id, name })] creates. *)
Definition inserted (account_id : Z) (name : string) (n : nat)
    (envs : list Environment.t) : Environment.t :=
  let d := column_defaults n envs in
  Environment.mk (Environment.id d) (Environment.uuid d) account_id name
    (Environment.secret_key d) (Environment.secret_key_iv d)
    (Environment.secret_key_tag d) (Environment.secret_key_hashed d)
    (Environment.pending_secret_key d) (Environment.pending_secret_key_iv d)
    (Environment.pending_secret_key_tag d)
    (Environment.public_key d) (Environment.pending_public_key d)
    (Environment.callback_url d) (Environment.webhook_url d)
    (Environment.hmac_enabled d) (Environment.hmac_key d)
    (Environment.always_send_webhook d) (Environment.send_auth_webhook d)
    (Environment.slack_notifications d).

(** [await db.knex.from(TABLE).insert({ account_id, name }).returning('id')] *)
Definition db_insert (account_id : Z) (name : string) : M (list Z) :=
  db_statement (fun w =>
    let row := inserted account_id name (entropy w) (environments w) in
    ([Environment.id row],
     set_entropy (S (entropy w)) (set_environments (environments w ++ [row]) w))).

(** [createEnvironment], lines 228-249. *)
Definition createEnvironment (accountId : Z) (environment : string)
  : M (option Environment.t) :=
  result <- db_insert accountId environment;;
  match result with
  | [environmentId] =>
      environment <- getById environmentId;;
      match environment with
      | None => ret None
      | Some environment =>
          hashed <- match Environment.secret_key environment with
                    | Some key => h <- hashSecretKey key;; ret (Some h)
                    | None => hashSecretKey_null
                    end;;
          encryptedEnvironment <-
            encryptEnvironment (Environment.set_secret_key_hashed hashed environment);;
          db_update environmentId (WholeRow encryptedEnvironment);;
          env <- decryptEnvironment encryptedEnvironment;;
          ret (Some env)
      end
  | _ => ret None
  end.

(** [defaultEnvironments], line 14. *)
Definition defaultEnvironments : list string := ["prod"; "dev"].

(** The [for] loop of [createDefaultEnvironments]. *)
Fixpoint createEach (accountId : Z) (names : list string) : M unit :=
  match names with
  | [] => ret tt
  | environment :: rest =>
      createEnvironment accountId environment;;
      createEach accountId rest
  end.

(** [createDefaultEnvironments], lines 251-255. *)
Definition createDefaultEnvironments (accountId : Z) : M unit :=
  createEach accountId defaultEnvironments.

End Administration.

(** ** More vocabulary *)

Section MoreVocabulary.
Context {P : Platform} {D : Schema}.

(** An operation keeps a relation between the world it starts from and the
    world it ends in, whatever it returns or throws. *)
Definition preserves {A} (R : World -> World -> Prop) (c : M A) : Prop :=
  forall w, R w (c w).2.

(** Rows whose id is not [id] are where and what they were. *)
Definition others_kept (id : Z) (envs envs' : list Environment.t) : Prop :=
  Forall2 (fun e e' => Environment.id e ≠ id -> e' = e) envs envs'.

(** What an operation on the environment [id] leaves alone: the rows of the
    other environments, the accounts and the hash cache. *)
Definition beside (id : Z) (w w' : World) : Prop :=
  others_kept id (environments w) (environments w') ∧
  accounts w' = accounts w ∧
  hashLocalCache w' = hashLocalCache w.

(** What a read leaves alone: both tables, the log of updates and the
    random draws. *)
Definition unwritten (w w' : World) : Prop :=
  environments w' = environments w ∧
  accounts w' = accounts w ∧
  writes w' = writes w ∧
  entropy w' = entropy w ∧
  db_up w' = db_up w.

(** What a lookup that involves no secret leaves alone, besides: the hash
    cache and the count of derivations. *)
Definition unhashed (w w' : World) : Prop :=
  unwritten w w' ∧
  hashLocalCache w' = hashLocalCache w ∧
  derivations w' = derivations w.

(** The defaults of the schema are usable: the id is new, and the new
    row reads back, without a decryption failure, with a secret key. *)
Definition schema_fresh : Prop :=
  forall n envs, where_id (Environment.id (column_defaults n envs)) envs = [].

Definition schema_readable : Prop :=
  forall account_id name n envs, exists d key,
    decrypted_view (inserted account_id name n envs) = Some d ∧
    Environment.secret_key d = Some key.

End MoreVocabulary.

Module SampleSchema.

(** Ids count up from the largest one in use; the keys are random and stored
    as the schema generates them, in the clear. *)
Definition next_id (envs : list Environment.t) : Z :=
  1 + foldr Z.max 0 (Environment.id <$> envs).

Definition schema : Schema :=
  {| column_defaults n envs :=
       Environment.mk (next_id envs) (Sample.uuid_v4 (n + 3)) 0 EmptyString
         (Some (Sample.uuid_v4 (n + 5))) None None None
         None None None
         (Some (Sample.uuid_v4 (n + 7))) None
         None None false None false false false |}.

End SampleSchema.

(** ** Environment variables *)

(** A row of [_nango_environment_variables], with the columns the service
    and the encryption of its value use ([models/EnvironmentVariable.ts] is
    not among the sources). *)
Module EnvironmentVariable.
Record t := mk {
  environment_id : Z;
  name : string;
  value : string;
  value_iv : option string;
  value_tag : option string
}.
End EnvironmentVariable.

(** The state of the process and of the database, with the second table. *)
Record Vault := mkVault {
  world : World;
  variables : list EnvironmentVariable.t    (* table _nango_environment_variables *)
}.

Definition V (A : Type) : Type := Vault -> Result A * Vault.

Definition retV {A} (a : A) : V A := fun v => (Ok a, v).

Definition bindV {A B} (c : V A) (k : A -> V B) : V B :=
  fun v =>
    match c v with
    | (Ok a, v') => k a v'
    | (Throw e, v') => (Throw e, v')
    end.

Definition throwV {A} (e : exn) : V A := fun v => (Throw e, v).

(** A computation on the first table alone, run on the larger state. *)
Definition liftV {A} (c : M A) : V A :=
  fun v => let '(r, w') := c (world v) in (r, mkVault w' (variables v)).

Notation "x <~ c ;; k" := (bindV c (fun x => k))
  (at level 100, c at next level, right associativity) : async_scope.

(** What the driver answers to the [insert] of the given rows. *)
Class Driver := {
  insert_results : list EnvironmentVariable.t -> list Z
}.

Section EnvironmentVariables.
Context {P : Platform} {Dr : Driver}.

(** An awaited statement on the second table. *)
Definition var_statement {A} (run : list EnvironmentVariable.t -> A * list EnvironmentVariable.t)
  : V A :=
  fun v =>
    if db_up (world v)
    then (let '(a, vars) := run (variables v) in (Ok a, mkVault (counted (world v)) vars))
    else (Throw StoreUnavailable, mkVault (counted (world v)) (variables v)).

(** Modelled from the spec: [encryptionManager.encryptEnvironmentVariables]
    is defined in utils/encryption.manager.ts, which is not among the
    sources. Spec 4.1: the values of environment variables are among the
    sensitive fields; each is encrypted and carries its own initialization
    vector and authentication tag. *)
Fixpoint encryptEnvironmentVariables (vars : list EnvironmentVariable.t)
  : M (list EnvironmentVariable.t) :=
  match vars with
  | [] => ret []
  | var :: rest =>
      n <- draw;;
      let '(c, iv, tag) := encrypt n (EnvironmentVariable.value var) in
      rest' <- encryptEnvironmentVariables rest;;
      ret (EnvironmentVariable.mk (EnvironmentVariable.environment_id var)
             (EnvironmentVariable.name var) c (Some iv) (Some tag) :: rest')
  end.

(** Modelled from the spec: [encryptionManager.decryptEnvironmentVariables]
    is defined in utils/encryption.manager.ts, which is not among the
    sources. Spec 4.1 and 7: the inverse; a tag that does not verify is a
    hard failure. *)
Fixpoint decryptEnvironmentVariables (vars : list EnvironmentVariable.t)
  : M (list EnvironmentVariable.t) :=
  match vars with
  | [] => ret []
  | var :: rest =>
      plain <- match EnvironmentVariable.value_iv var, EnvironmentVariable.value_tag var with
               | Some iv, Some tag =>
                   match decrypt (EnvironmentVariable.value var) iv tag with
                   | Some plain => ret plain
                   | None => throw DecryptionFailure
                   end
               | _, _ => ret (EnvironmentVariable.value var)
               end;;
      rest' <- decryptEnvironmentVariables rest;;
      ret (EnvironmentVariable.mk (EnvironmentVariable.environment_id var)
             (EnvironmentVariable.name var) plain
             (EnvironmentVariable.value_iv var) (EnvironmentVariable.value_tag var) :: rest')
  end.

(** [getEnvironmentVariables], lines 320-328. *)
Definition getEnvironmentVariables (environment_id : Z)
  : V (list EnvironmentVariable.t) :=
  result <~ var_statement (fun vars =>
    (filter (fun var => EnvironmentVariable.environment_id var = environment_id) vars,
     vars));;
  match result with
  | [] => retV []
  | _ => liftV (decryptEnvironmentVariables result)
  end.

(** [editEnvironmentVariable], lines 330-353. *)
Definition editEnvironmentVariable (environment_id : Z) (values : list (string * string))
  : V (option (list Z)) :=
  _ <~ var_statement (fun vars =>
    (tt, filter (fun var => EnvironmentVariable.environment_id var ≠ environment_id) vars));;
  match values with
  | [] => retV None
  | _ =>
      let mappedValues :=
        (fun value => EnvironmentVariable.mk environment_id value.1 value.2 None None)
          <$> values in
      encryptedValues <~ liftV (encryptEnvironmentVariables mappedValues);;
      results <~ var_statement (fun vars =>
        (insert_results encryptedValues, vars ++ encryptedValues));;
      match results with
      | [] => retV None
      | _ => retV (Some results)
      end
  end.

(** An encrypted variable against the variable it was made from. *)
Definition sealed_from (plain enc : EnvironmentVariable.t) : Prop :=
  EnvironmentVariable.environment_id enc = EnvironmentVariable.environment_id plain ∧
  EnvironmentVariable.name enc = EnvironmentVariable.name plain ∧
  exists n,
    EnvironmentVariable.value enc = (encrypt n (EnvironmentVariable.value plain)).1.1 ∧
    EnvironmentVariable.value_iv enc = Some (encrypt n (EnvironmentVariable.value plain)).1.2 ∧
    EnvironmentVariable.value_tag enc = Some (encrypt n (EnvironmentVariable.value plain)).2.

End EnvironmentVariables.

(** ** More of the sample deployment *)

Module Fixtures.

(** A row whose authentication tag does not verify. *)
Definition tampered : Environment.t :=
  Environment.set_secret (Some "#sk-staging") (Some "iv") (Some "forged")
    (Sample.row 3 1 "staging" "sk-staging" "pk-staging").

(** A row with a rotation of the public key in flight. *)
Definition dev_rotating : Environment.t :=
  Environment.set_pending_public_key (Some "pk-next") Sample.dev.

(** Self-hosted, no master key configured: nothing is hashed. *)
Definition unkeyed : Platform :=
  Build_Platform false [] None Sample.pbkdf2 Sample.uuid_v4 Sample.encrypt Sample.decrypt.

Definition driver : Driver :=
  {| insert_results rows := Z.of_nat <$> seq 1 (length rows) |}.

Definition variable (environment_id : Z) (name value : string) : EnvironmentVariable.t :=
  EnvironmentVariable.mk environment_id name (String "#" value) (Some "iv") (Some "tag").

Definition vault : Vault :=
  mkVault (Sample.world true [Sample.dev; Sample.prod])
    [variable 1 "REGION" "eu"; variable 2 "REGION" "us"; variable 1 "TIER" "free"].

End Fixtures.
(** ** The model at work *)

Example envName_of_dev :
  envName_of "NANGO_SECRET_KEY_" "NANGO_SECRET_KEY_DEV" = "dev".
Proof. reflexivity. Qed.

Example replace_first_occurrence_only :
  JsString.replace "A_KEY_KEY_B" "KEY_" EmptyString = "A_KEY_B".
Proof. reflexivity. Qed.

Example scan_stops_at_first_match :
  @matching_variable Sample.selfHosted "NANGO_SECRET_KEY_" "xyz789"
    = Some "NANGO_SECRET_KEY_PROD".
Proof. reflexivity. Qed.

Example resolve_known_secret :
  (@getAccountAndEnvironmentBySecretKey Sample.cloud "sk-prod"
     (Sample.world true [Sample.dev; Sample.prod])).1
  = Ok (Some (Sample.globex,
              Environment.set_secret (Some "sk-prod") (Some "iv") (Some "tag") Sample.prod)).
Proof. vm_compute. reflexivity. Qed.

Example resolve_unknown_secret :
  (@getAccountAndEnvironmentBySecretKey Sample.cloud "guess"
     (Sample.world true [Sample.dev; Sample.prod])).1 = Ok None.
Proof. vm_compute. reflexivity. Qed.

Example resolve_during_outage :
  (@getAccountAndEnvironmentBySecretKey Sample.cloud "sk-prod"
     (Sample.world false [Sample.dev; Sample.prod])).1 = Throw StoreUnavailable.
Proof. vm_compute. reflexivity. Qed.

Example rotate_secret_row :
  (fun e => (Environment.secret_key e, Environment.pending_secret_key e,
             Environment.secret_key_hashed e)) <$>
    environments (@rotateKey Sample.cloud 1 "secret" (Sample.world true [Sample.dev])).2
  = [(Some "#sk-dev", Some "#0f8fad5b", Some "H(sk-dev,master)")].
Proof. vm_compute. reflexivity. Qed.

(** ** Running the primitives *)

Section Primitives.
Context {P : Platform}.

Lemma db_select_up {A} (q : list Environment.t -> list Account.t -> A) w :
  db_up w = true ->
  db_select q w = (Ok (q (environments w) (accounts w)), counted w).
Proof. intros Hup. unfold db_select, db_statement. rewrite Hup. reflexivity. Qed.

Lemma db_select_down {A} (q : list Environment.t -> list Account.t -> A) w :
  db_up w = false ->
  db_select q w = (Throw StoreUnavailable, counted w).
Proof. intros Hup. unfold db_select, db_statement. rewrite Hup. reflexivity. Qed.

Lemma db_update_up id c w :
  db_up w = true ->
  db_update id c w =
    (Ok tt, set_writes (writes w ++ [(id, c)])
              (set_environments (update_where_id id c (environments w)) (counted w))).
Proof. intros Hup. unfold db_update, db_statement. rewrite Hup. reflexivity. Qed.

Lemma getById_eq id w :
  getById id w =
    if db_up w then
      match row_of id w with
      | None => (Ok None, counted w)
      | Some row =>
          match decrypted_view row with
          | Some d => (Ok (Some d), counted w)
          | None => (Ok None, set_reported (DecryptionFailure :: reported w) (counted w))
          end
      end
    else (Ok None, set_reported (StoreUnavailable :: reported w) (counted w)).
Proof.
  unfold getById, try_catch, bind, row_of.
  destruct (db_up w) eqn:Hup.
  - rewrite db_select_up by done.
    destruct (where_id id (environments w)) as [|row rest]; simpl; [done|].
    unfold decryptEnvironment. destruct (decrypted_view row); reflexivity.
  - rewrite db_select_down by done. reflexivity.
Qed.

Lemma getRawById_eq id w :
  getRawById id w =
    if db_up w then (Ok (row_of id w), counted w)
    else (Ok None, set_reported (StoreUnavailable :: reported w) (counted w)).
Proof.
  unfold getRawById, try_catch, bind, row_of.
  destruct (db_up w) eqn:Hup.
  - rewrite db_select_up by done. reflexivity.
  - rewrite db_select_down by done. reflexivity.
Qed.

End Primitives.

(** ** Reads while the database cannot be reached *)

Section Outage.
Context {P : Platform}.

(** C9, as the code has it: with the database unreachable, the reads wrapped
    in [try]/[catch] ([getById], [getRawById], [getEnvironmentsByAccountId])
    report the failure and answer as if nothing was found, while the reads
    without a handler ([getByEnvironmentName], [getIdByUuid],
    [getEnvironmentName]) let [StoreUnavailable] reach the caller; either way
    the statement is sent once. *)
Theorem reads_during_outage (w : World) (id accountId : Z) (name uuid : string) :
  db_up w = false ->
  let absorbed := set_reported (StoreUnavailable :: reported w) (counted w) in
  getById id w = (Ok None, absorbed) ∧
  getRawById id w = (Ok None, absorbed) ∧
  getEnvironmentsByAccountId accountId w = (Ok [], absorbed) ∧
  getByEnvironmentName accountId name w = (Throw StoreUnavailable, counted w) ∧
  getIdByUuid uuid w = (Throw StoreUnavailable, counted w) ∧
  getEnvironmentName id w = (Throw StoreUnavailable, counted w) ∧
  db_calls (counted w) = S (db_calls w).
Proof.
  intros Hdown absorbed. subst absorbed.
  rewrite getById_eq, getRawById_eq, Hdown.
  unfold getEnvironmentsByAccountId, getByEnvironmentName, getIdByUuid,
    getEnvironmentName, try_catch, bind.
  rewrite !db_select_down by done.
  repeat split.
Qed.

End Outage.

Lemma reads_during_outage_witness :
  db_calls (counted (Sample.world false [Sample.dev])) = 1%nat.
Proof.
  exact (proj2 (proj2 (proj2 (proj2 (proj2 (proj2
    (@reads_during_outage Sample.cloud (Sample.world false [Sample.dev]) 1 1 "dev" "env-dev"
       eq_refl))))))).
Defined.

(** C9 fails as stated: [getById] on an unreachable database answers
    [null], exactly what it answers for an id that no row has. *)
Lemma getById_absorbs_outage :
  (@getById Sample.cloud 1 (Sample.world false [Sample.dev])).1 = Ok None ∧
  (@getById Sample.cloud 1 (Sample.world false [Sample.dev])).1 ≠ Throw StoreUnavailable ∧
  (@getById Sample.cloud 1 (Sample.world false [Sample.dev])).1
    = (@getById Sample.cloud 1 (Sample.world true [])).1.
Proof. vm_compute. repeat split. discriminate. Qed.

(** ** Activation *)

Section Activation.
Context {P : Platform}.

(** [activateKey] signals failure with the boolean [false]: when no row has
    the id it returns [false], for every type, sends no [update] and leaves
    the table and the hash cache as they are. *)
Theorem activate_unknown_id (w : World) (id : Z) (type : string) :
  row_of id w = None ->
  exists w',
    activateKey id type w = (Ok false, w') ∧
    environments w' = environments w ∧
    writes w' = writes w ∧
    hashLocalCache w' = hashLocalCache w.
Proof.
  intros Hrow. unfold activateKey, activateSecretKey, activatePublicKey, bind.
  repeat case_bool_decide.
  - rewrite getRawById_eq, Hrow. destruct (db_up w); eexists; split; reflexivity || done.
  - rewrite getById_eq, Hrow. destruct (db_up w); eexists; split; reflexivity || done.
  - eexists; split; reflexivity || done.
Qed.

End Activation.

Lemma activate_unknown_id_witness :
  exists w',
    @activateKey Sample.cloud 7 "secret" (Sample.world true [Sample.dev]) = (Ok false, w') ∧
    environments w' = [Sample.dev] ∧ writes w' = [] ∧ hashLocalCache w' = ∅.
Proof.
  exact (@activate_unknown_id Sample.cloud (Sample.world true [Sample.dev]) 7 "secret" eq_refl).
Defined.

(** ** Updates by id *)

Section Updates.
Context {P : Platform}.

Lemma row_of_update id c envs :
  (forall e, Environment.id e = id -> Environment.id (assign c e) = id) ->
  head (where_id id (update_where_id id c envs)) = assign c <$> head (where_id id envs).
Proof.
  intros Hid. unfold where_id, update_where_id.
  induction envs as [|e envs IH]; [done|].
  rewrite fmap_cons, !filter_cons.
  destruct (decide (Environment.id e = id)) as [He|He].
  - rewrite decide_True by auto. reflexivity.
  - rewrite decide_False by done. exact IH.
Qed.

Lemma update_unknown_id id c envs :
  where_id id envs = [] -> update_where_id id c envs = envs.
Proof.
  unfold where_id, update_where_id.
  induction envs as [|e envs IH]; [done|].
  rewrite filter_cons, fmap_cons.
  destruct (decide (Environment.id e = id)); [done|].
  intros H. by rewrite IH.
Qed.

Lemma update_whole_row id c row envs :
  (forall e, Environment.id e = id -> Environment.id (assign c e) = id) ->
  update_where_id id (WholeRow row) (update_where_id id c envs) = replace_id id row envs.
Proof.
  intros Hid. unfold update_where_id, replace_id.
  rewrite <- list_fmap_compose. apply list_fmap_ext. intros _ e _. simpl.
  destruct (decide (Environment.id e = id)) as [He|He].
  - rewrite decide_True by auto. reflexivity.
  - rewrite decide_False by done. reflexivity.
Qed.

Lemma update_after_replace id c row envs :
  Environment.id row = id ->
  update_where_id id c (replace_id id row envs) = replace_id id (assign c row) envs.
Proof.
  intros Hid. unfold update_where_id, replace_id.
  rewrite <- list_fmap_compose. apply list_fmap_ext. intros _ e _. simpl.
  destruct (decide (Environment.id e = id)) as [He|He].
  - rewrite decide_True by done. reflexivity.
  - rewrite decide_False by done. reflexivity.
Qed.

Lemma row_of_replace id row envs :
  Environment.id row = id ->
  is_Some (head (where_id id envs)) ->
  head (where_id id (replace_id id row envs)) = Some row.
Proof.
  intros Hid. unfold where_id, replace_id.
  induction envs as [|e envs IH]; [by intros [? ?]|].
  rewrite fmap_cons, !filter_cons.
  destruct (decide (Environment.id e = id)) as [He|He].
  - rewrite decide_True by done. reflexivity.
  - rewrite decide_False by done. exact IH.
Qed.

Lemma elem_of_replace id row envs e :
  e ∈ replace_id id row envs ->
  e = row ∨ (e ∈ envs ∧ Environment.id e ≠ id).
Proof.
  unfold replace_id. intros (e0 & -> & Hin)%list_elem_of_fmap.
  destruct (decide (Environment.id e0 = id)); auto.
Qed.

Lemma replace_elem_of id row envs :
  is_Some (head (where_id id envs)) -> row ∈ replace_id id row envs.
Proof.
  intros [r Hr]. apply head_Some_elem_of in Hr.
  apply list_elem_of_filter in Hr as [Hid Hin].
  unfold replace_id. apply list_elem_of_fmap. exists r. split; [|done].
  by rewrite decide_True.
Qed.

Lemma encryptEnvironment_eq e w :
  encryptEnvironment e w =
    (Ok (sealed (entropy w) e), set_entropy (entropy w + draws e) w).
Proof.
  unfold encryptEnvironment, sealed, draws, bind, draw, ret.
  destruct w as [up envs accts cache der calls wr rep ent]; simpl.
  destruct (Environment.secret_key e) as [plain|] eqn:Hs; simpl.
  - destruct (encrypt ent plain) as [[c iv] tag]; simpl.
    destruct (Environment.pending_secret_key e) as [pplain|] eqn:Hp; simpl.
    + destruct (encrypt (S ent) pplain) as [[c' iv'] tag']; simpl.
      unfold set_entropy; simpl. do 2 f_equal. lia.
    + unfold set_entropy; simpl. do 2 f_equal. lia.
  - destruct (Environment.pending_secret_key e) as [pplain|] eqn:Hp; simpl.
    + destruct (encrypt ent pplain) as [[c' iv'] tag']; simpl.
      unfold set_entropy; simpl. do 2 f_equal. lia.
    + unfold set_entropy; simpl. do 2 f_equal. lia.
Qed.

End Updates.

(** ** The encrypted and the decrypted view of a row *)

Section Views.
Context {P : Platform}.

(** What [decrypted_view] leaves alone. *)
Lemma decrypted_view_frame e d :
  decrypted_view e = Some d ->
  Environment.id d = Environment.id e ∧
  Environment.account_id d = Environment.account_id e ∧
  Environment.name d = Environment.name e ∧
  Environment.secret_key_hashed d = Environment.secret_key_hashed e ∧
  Environment.public_key d = Environment.public_key e ∧
  Environment.pending_public_key d = Environment.pending_public_key e.
Proof.
  unfold decrypted_view. intros H.
  destruct (decrypt_field _ _ _); [|done].
  destruct (decrypt_field _ _ _); [|done].
  injection H as <-. repeat split.
Qed.

Lemma decrypted_view_fields e d :
  decrypted_view e = Some d ->
  decrypt_field (Environment.secret_key e) (Environment.secret_key_iv e)
    (Environment.secret_key_tag e) = Some (Environment.secret_key d) ∧
  decrypt_field (Environment.pending_secret_key e) (Environment.pending_secret_key_iv e)
    (Environment.pending_secret_key_tag e) = Some (Environment.pending_secret_key d).
Proof.
  unfold decrypted_view. intros H.
  destruct (decrypt_field _ _ _); [|done].
  destruct (decrypt_field _ _ _); [|done].
  injection H as <-. split; reflexivity.
Qed.

(** A row that went through [encryptEnvironment] decrypts to what it was. *)
Lemma sealed_view n e :
  cipher_roundtrip ->
  exists v,
    decrypted_view (sealed n e) = Some v ∧
    Environment.secret_key v = Environment.secret_key e ∧
    Environment.pending_secret_key v = Environment.pending_secret_key e.
Proof.
  intros Hrt. unfold sealed, decrypted_view.
  destruct e as [i u a nm sk ski skt skh psk pski pskt pk ppk cb wh he hk asw saw sn].
  simpl.
  destruct sk as [plain|]; simpl.
  - pose proof (Hrt n plain) as H1.
    destruct (encrypt n plain) as [[c iv] tag]; simpl in *.
    destruct psk as [pplain|]; simpl.
    + pose proof (Hrt (S n) pplain) as H2.
      destruct (encrypt (S n) pplain) as [[c' iv'] tag']; simpl in *.
      rewrite H1, H2. eexists; split; [reflexivity|]. split; reflexivity.
    + rewrite H1. eexists; split; [reflexivity|]. split; reflexivity.
  - destruct psk as [pplain|]; simpl.
    + pose proof (Hrt n pplain) as H2.
      destruct (encrypt n pplain) as [[c' iv'] tag']; simpl in *.
      rewrite H2. eexists; split; [reflexivity|]. split; reflexivity.
    + eexists; split; [reflexivity|]. split; reflexivity.
Qed.

(** What [encryptEnvironment] leaves alone. *)
Lemma sealed_frame n e :
  Environment.id (sealed n e) = Environment.id e ∧
  Environment.account_id (sealed n e) = Environment.account_id e ∧
  Environment.name (sealed n e) = Environment.name e ∧
  Environment.secret_key_hashed (sealed n e) = Environment.secret_key_hashed e ∧
  Environment.public_key (sealed n e) = Environment.public_key e ∧
  Environment.pending_public_key (sealed n e) = Environment.pending_public_key e.
Proof.
  unfold sealed.
  destruct (Environment.secret_key e) as [plain|].
  - destruct (encrypt n plain) as [[c iv] tag]; simpl.
    destruct (Environment.pending_secret_key e) as [pplain|]; simpl.
    + destruct (encrypt (S n) pplain) as [[c' iv'] tag']; repeat split.
    + repeat split.
  - destruct (Environment.pending_secret_key e) as [pplain|]; simpl.
    + destruct (encrypt n pplain) as [[c' iv'] tag']; repeat split.
    + repeat split.
Qed.

(** Promotion moves the pending ciphertext, with its vector and tag, into
    the active slot: the active key then decrypts to what was pending. *)
Lemma promoted_view e d h :
  decrypted_view e = Some d ->
  exists v,
    decrypted_view
      (assign (PromoteSecret (Environment.pending_secret_key e)
                 (Environment.pending_secret_key_iv e)
                 (Environment.pending_secret_key_tag e) h) e) = Some v ∧
    Environment.secret_key v = Environment.pending_secret_key d ∧
    Environment.pending_secret_key v = None.
Proof.
  intros Hd. apply decrypted_view_fields in Hd as [_ Hp].
  unfold decrypted_view. simpl. rewrite Hp. simpl.
  eexists; split; [reflexivity|]. split; reflexivity.
Qed.

(** Clearing the pending slot does not disturb the active key. *)
Lemma cleared_view e d :
  decrypted_view e = Some d ->
  exists v,
    decrypted_view (assign ClearPendingSecret e) = Some v ∧
    Environment.secret_key v = Environment.secret_key d ∧
    Environment.pending_secret_key v = None.
Proof.
  intros Hd. apply decrypted_view_fields in Hd as [Hs _].
  unfold decrypted_view. simpl. rewrite Hs. simpl.
  eexists; split; [reflexivity|]. split; reflexivity.
Qed.

End Views.

(** ** Activation with nothing pending *)

Section ActivationWithoutPending.
Context {P : Platform}.

(** C1 does not hold of the code: [activateKey] never looks at the pending
    slot, so for an environment that exists and reads back, on a database
    that answers, activating with nothing pending is not refused.
    - Type public, no pending public key: what is left of the call after the
      lookup is [update({ public_key: null, pending_public_key: null })]
      followed by [return true], whatever the store makes of that statement;
      the table here applies it, so the answer is [true], the update is in
      the log, and the row has lost its active public key.
    - Type secret, no pending secret, no encryption key configured:
      [hashSecretKey] hands the [null] back, the update writes [null] over
      the active secret and over its hash, and the answer is [true].
    - Type secret, no pending secret, an encryption key configured: the
      derivation rejects the [null]; the call throws a [TypeError] before any
      update is sent.
    In no case is there an [InvalidRotationState]. *)
Theorem activate_without_pending (w : World) (id : Z) (row d : Environment.t) :
  db_up w = true -> row_of id w = Some row -> decrypted_view row = Some d ->
  (Environment.pending_public_key row = None ->
   activateKey id "public" w
     = (db_update id (PromotePublic None);; ret true) (counted w) ∧
   exists w' row',
     activateKey id "public" w = (Ok true, w') ∧
     writes w' = writes w ++ [(id, PromotePublic None)] ∧
     row_of id w' = Some row' ∧
     Environment.public_key row' = None) ∧
  (Environment.pending_secret_key row = None ->
   match encryption_key with
   | Some _ => activateKey id "secret" w = (Throw TypeError, counted w)
   | None =>
       let c := PromoteSecret None (Environment.pending_secret_key_iv row)
                  (Environment.pending_secret_key_tag row) None in
       exists w' row',
         activateKey id "secret" w = (Ok true, w') ∧
         writes w' = writes w ++ [(id, c)] ∧
         row_of id w' = Some row' ∧
         Environment.secret_key row' = None ∧
         Environment.secret_key_hashed row' = None
   end).
Proof.
  intros Hup Hrow Hd. split.
  - intros Hpending.
    assert (Hrun : activateKey id "public" w
                   = (db_update id (PromotePublic None);; ret true) (counted w)).
    { unfold activateKey. rewrite bool_decide_eq_false_2 by discriminate.
      rewrite bool_decide_eq_true_2 by reflexivity.
      unfold activatePublicKey. unfold bind at 1.
      rewrite getById_eq, Hup, Hrow, Hd.
      apply decrypted_view_frame in Hd as (_ & _ & _ & _ & _ & ->).
      rewrite Hpending. reflexivity. }
    split; [exact Hrun|]. rewrite Hrun. unfold bind.
    rewrite db_update_up by exact Hup.
    eexists. exists (assign (PromotePublic None) row).
    split; [reflexivity|]. split; [reflexivity|]. split; [|reflexivity].
    unfold row_of. simpl.
    rewrite row_of_update by (intros e He; exact He).
    unfold row_of in Hrow. rewrite Hrow. reflexivity.
  - intros Hpending.
    pose proof (decrypted_view_fields _ _ Hd) as [_ Hp].
    rewrite Hpending in Hp. simpl in Hp. injection Hp as Hp.
    assert (Hrun : activateKey id "secret" w
                   = (hashed <- hashSecretKey_null;;
                      db_update id (PromoteSecret None
                                      (Environment.pending_secret_key_iv row)
                                      (Environment.pending_secret_key_tag row) hashed);;
                      updatedEnvironment <- getById id;;
                      match updatedEnvironment with
                      | None => ret false
                      | Some _ => ret true
                      end) (counted w)).
    { unfold activateKey. rewrite bool_decide_eq_true_2 by reflexivity.
      unfold activateSecretKey. unfold bind at 1.
      rewrite getRawById_eq, Hup, Hrow.
      unfold bind at 1. unfold decryptEnvironment. rewrite Hd. unfold ret at 1.
      rewrite <- Hp, Hpending. reflexivity. }
    rewrite Hrun. clear Hrun. unfold hashSecretKey_null.
    destruct encryption_key as [K|]; [reflexivity|].
    set (c := PromoteSecret None (Environment.pending_secret_key_iv row)
                (Environment.pending_secret_key_tag row) None).
    unfold bind at 1. unfold ret at 1. fold c.
    unfold bind at 1. rewrite db_update_up by exact Hup.
    unfold bind. rewrite getById_eq. simpl. rewrite Hup.
    unfold row_of. simpl.
    rewrite row_of_update by (intros e He; exact He).
    unfold row_of in Hrow. rewrite Hrow.
    change (assign c <$> Some row) with (Some (assign c row)). cbv beta iota.
    assert (Hv : exists v, decrypted_view (assign c row) = Some v).
    { unfold decrypted_view. simpl. eexists; reflexivity. }
    destruct Hv as [v Hv]. rewrite Hv.
    eexists. exists (assign c row).
    split; [reflexivity|]. split; [reflexivity|]. split; [|split; reflexivity].
    simpl. rewrite row_of_update by (intros e He; exact He).
    rewrite Hrow. reflexivity.
Qed.

End ActivationWithoutPending.

Lemma activate_without_pending_witness :
  let w := Sample.world true [Sample.dev] in
  (exists w' row',
     @activateKey Sample.cloud 1 "public" w = (Ok true, w') ∧
     writes w' = [(1, PromotePublic None)] ∧
     row_of 1 w' = Some row' ∧
     Environment.public_key row' = None) ∧
  @activateKey Sample.cloud 1 "secret" w = (Throw TypeError, counted w) ∧
  (exists w' row',
     @activateKey Fixtures.unkeyed 1 "secret" w = (Ok true, w') ∧
     writes w' = [(1, PromoteSecret None None None None)] ∧
     row_of 1 w' = Some row' ∧
     Environment.secret_key row' = None ∧
     Environment.secret_key_hashed row' = None).
Proof.
  intros w.
  pose proof (@activate_without_pending Sample.cloud w 1 Sample.dev
                (Environment.set_secret (Some "sk-dev") (Some "iv") (Some "tag") Sample.dev)
                eq_refl eq_refl eq_refl) as [Hpublic Hsecret].
  pose proof (@activate_without_pending Fixtures.unkeyed w 1 Sample.dev
                (Environment.set_secret (Some "sk-dev") (Some "iv") (Some "tag") Sample.dev)
                eq_refl eq_refl eq_refl) as [_ Hunkeyed].
  split; [exact (proj2 (Hpublic eq_refl))|].
  split; [exact (Hsecret eq_refl)|exact (Hunkeyed eq_refl)].
Defined.

(** ** Rotation *)

Section Rotation.
Context {P : Platform}.

Lemma update_noop id c envs :
  (forall e, e ∈ envs -> Environment.id e = id -> assign c e = e) ->
  update_where_id id c envs = envs.
Proof.
  intros H. unfold update_where_id.
  rewrite <- (list_fmap_id envs) at 2.
  apply list_fmap_ext. intros _ e He%list_elem_of_lookup_2. simpl.
  destruct (decide (Environment.id e = id)); auto.
Qed.

Lemma rotateSecretKey_eq w id row d :
  db_up w = true -> row_of id w = Some row -> decrypted_view row = Some d ->
  let p := uuid_v4 (entropy w) in
  let enc := sealed (S (entropy w)) (Environment.set_pending_secret_key (Some p) d) in
  exists w',
    rotateSecretKey id w = (Ok (Some p), w') ∧
    db_up w' = true ∧
    environments w' = replace_id id enc (environments w) ∧
    accounts w' = accounts w ∧
    hashLocalCache w' = hashLocalCache w ∧
    derivations w' = derivations w ∧
    writes w' = writes w ++ [(id, PendingSecretKey (Some p)); (id, WholeRow enc)].
Proof.
  intros Hup Hrow Hd p enc. unfold rotateSecretKey, bind.
  rewrite getById_eq, Hup, Hrow, Hd. unfold draw; simpl.
  rewrite db_update_up by done.
  rewrite encryptEnvironment_eq. simpl.
  rewrite db_update_up by done. simpl.
  eexists; split; [reflexivity|]. simpl.
  rewrite update_whole_row by (intros e He; exact He).
  rewrite <- app_assoc. repeat split; done.
Qed.

Lemma rotatePublicKey_eq w id :
  db_up w = true ->
  let p := uuid_v4 (entropy w) in
  exists w',
    rotatePublicKey id w = (Ok (Some p), w') ∧
    db_up w' = true ∧
    environments w' = update_where_id id (PendingPublicKey (Some p)) (environments w) ∧
    accounts w' = accounts w ∧
    hashLocalCache w' = hashLocalCache w ∧
    derivations w' = derivations w ∧
    writes w' = writes w ++ [(id, PendingPublicKey (Some p))].
Proof.
  intros Hup p. unfold rotatePublicKey, bind, draw; simpl.
  rewrite db_update_up by done. simpl.
  eexists; split; [reflexivity|]. repeat split; done.
Qed.

Lemma revertSecretKey_eq w id row d :
  db_up w = true -> row_of id w = Some row -> decrypted_view row = Some d ->
  exists w',
    revertSecretKey id w = (Ok (Environment.secret_key d), w') ∧
    db_up w' = true ∧
    environments w' = update_where_id id ClearPendingSecret (environments w) ∧
    hashLocalCache w' = hashLocalCache w ∧
    writes w' = writes w ++ [(id, ClearPendingSecret)].
Proof.
  intros Hup Hrow Hd. unfold revertSecretKey, bind.
  rewrite getById_eq, Hup, Hrow, Hd.
  rewrite db_update_up by done. simpl.
  eexists; split; [reflexivity|]. repeat split; done.
Qed.

Lemma revertPublicKey_eq w id row d :
  db_up w = true -> row_of id w = Some row -> decrypted_view row = Some d ->
  exists w',
    revertPublicKey id w = (Ok (Environment.public_key d), w') ∧
    db_up w' = true ∧
    environments w' = update_where_id id (PendingPublicKey None) (environments w) ∧
    hashLocalCache w' = hashLocalCache w ∧
    writes w' = writes w ++ [(id, PendingPublicKey None)].
Proof.
  intros Hup Hrow Hd. unfold revertPublicKey, bind.
  rewrite getById_eq, Hup, Hrow, Hd.
  rewrite db_update_up by done. simpl.
  eexists; split; [reflexivity|]. repeat split; done.
Qed.

Lemma rotateKey_secret id : rotateKey id "secret" = rotateSecretKey id.
Proof. reflexivity. Qed.
Lemma rotateKey_public id : rotateKey id "public" = rotatePublicKey id.
Proof. reflexivity. Qed.
Lemma revertKey_secret id : revertKey id "secret" = revertSecretKey id.
Proof. reflexivity. Qed.
Lemma revertKey_public id : revertKey id "public" = revertPublicKey id.
Proof. reflexivity. Qed.
Lemma activateKey_secret id : activateKey id "secret" = activateSecretKey id.
Proof. reflexivity. Qed.

(** C2, where the code departs from it: on an existing environment
    [rotateKey id "secret"] first sends [update({ pending_secret_key })] with
    the very value it returns to the caller, the new secret in the clear, and
    only then the encrypted row. *)
Theorem rotateSecretKey_writes_plaintext (w : World) (id : Z) (row d : Environment.t) :
  db_up w = true -> row_of id w = Some row -> decrypted_view row = Some d ->
  exists p enc w',
    rotateKey id "secret" w = (Ok (Some p), w') ∧
    writes w' = writes w ++ [(id, PendingSecretKey (Some p)); (id, WholeRow enc)] ∧
    Environment.pending_secret_key (assign (PendingSecretKey (Some p)) row) = Some p.
Proof.
  intros Hup Hrow Hd. rewrite rotateKey_secret.
  destruct (rotateSecretKey_eq w id row d Hup Hrow Hd) as (w' & Hrun & _ & _ & _ & _ & _ & Hw).
  eexists _, _, w'. split; [exact Hrun|]. split; [exact Hw|]. reflexivity.
Qed.

(** C4, where the code departs from it: for an id that no row has,
    [rotateKey id "public"] returns the value it generated instead of
    [null] (the secret variant does return [null]); the table is not
    changed. *)
Theorem rotatePublicKey_unknown_id (w : World) (id : Z) :
  db_up w = true -> row_of id w = None ->
  exists w',
    rotateKey id "public" w = (Ok (Some (uuid_v4 (entropy w))), w') ∧
    environments w' = environments w ∧
    (rotateKey id "secret" w).1 = Ok None.
Proof.
  intros Hup Hrow. rewrite rotateKey_public, rotateKey_secret.
  destruct (rotatePublicKey_eq w id Hup) as (w' & Hrun & _ & Henvs & _).
  exists w'. split; [exact Hrun|]. split.
  - rewrite Henvs. apply update_unknown_id.
    unfold row_of in Hrow. by destruct (where_id id (environments w)).
  - unfold rotateSecretKey, bind. rewrite getById_eq, Hup, Hrow. reflexivity.
Qed.

(** C5: on an existing environment, rotating and then reverting leaves the
    active value and the stored hash as they were and the pending slot
    empty, for the secret and for the public key; reverting when nothing is
    pending changes no row and returns the active value. *)
Theorem rotate_then_revert (w : World) (id : Z) (row d : Environment.t) :
  cipher_roundtrip ->
  db_up w = true -> row_of id w = Some row -> decrypted_view row = Some d ->
  (exists p w1 w2 row2 v2,
     rotateKey id "secret" w = (Ok (Some p), w1) ∧
     revertKey id "secret" w1 = (Ok (Environment.secret_key d), w2) ∧
     row_of id w2 = Some row2 ∧
     decrypted_view row2 = Some v2 ∧
     Environment.secret_key v2 = Environment.secret_key d ∧
     Environment.secret_key_hashed row2 = Environment.secret_key_hashed row ∧
     Environment.pending_secret_key row2 = None ∧
     Environment.pending_secret_key_iv row2 = None ∧
     Environment.pending_secret_key_tag row2 = None) ∧
  (exists p w1 w2 row2,
     rotateKey id "public" w = (Ok (Some p), w1) ∧
     revertKey id "public" w1 = (Ok (Environment.public_key row), w2) ∧
     row_of id w2 = Some row2 ∧
     Environment.public_key row2 = Environment.public_key row ∧
     Environment.secret_key row2 = Environment.secret_key row ∧
     Environment.secret_key_hashed row2 = Environment.secret_key_hashed row ∧
     Environment.pending_public_key row2 = None) ∧
  ((forall e, e ∈ environments w -> Environment.id e = id ->
      Environment.pending_secret_key e = None ∧
      Environment.pending_secret_key_iv e = None ∧
      Environment.pending_secret_key_tag e = None) ->
   exists w',
     revertKey id "secret" w = (Ok (Environment.secret_key d), w') ∧
     environments w' = environments w) ∧
  ((forall e, e ∈ environments w -> Environment.id e = id ->
      Environment.pending_public_key e = None) ->
   exists w',
     revertKey id "public" w = (Ok (Environment.public_key row), w') ∧
     environments w' = environments w).
Proof.
  intros Hrt Hup Hrow Hd.
  pose proof (decrypted_view_frame _ _ Hd) as (Hid & Hacc & Hname & Hhash & Hpk & Hppk).
  assert (Hrowid : Environment.id row = id).
  { unfold row_of in Hrow. apply head_Some_elem_of in Hrow.
    by apply list_elem_of_filter in Hrow as [? _]. }
  split; [|split; [|split]].
  - rewrite rotateKey_secret.
    destruct (rotateSecretKey_eq w id row d Hup Hrow Hd)
      as (w1 & Hrun1 & Hup1 & Henvs1 & _ & _ & _ & _).
    set (p := uuid_v4 (entropy w)) in *.
    set (enc := sealed (S (entropy w)) (Environment.set_pending_secret_key (Some p) d)) in *.
    destruct (sealed_view (S (entropy w)) (Environment.set_pending_secret_key (Some p) d) Hrt)
      as (v1 & Hv1 & Hsk1 & _).
    pose proof (sealed_frame (S (entropy w)) (Environment.set_pending_secret_key (Some p) d))
      as (Hid1 & _ & _ & Hhash1 & _).
    fold enc in Hv1, Hid1, Hhash1. simpl in Hsk1, Hid1, Hhash1.
    assert (Hencid : Environment.id enc = id) by congruence.
    assert (Hrow1 : row_of id w1 = Some enc).
    { unfold row_of. rewrite Henvs1. apply row_of_replace; [done|].
      unfold row_of in Hrow. by rewrite Hrow. }
    rewrite revertKey_secret.
    destruct (revertSecretKey_eq w1 id enc v1 Hup1 Hrow1 Hv1)
      as (w2 & Hrun2 & _ & Henvs2 & _).
    destruct (cleared_view enc v1 Hv1) as (v2 & Hv2 & Hsk2 & _).
    exists p, w1, w2, (assign ClearPendingSecret enc), v2.
    split; [exact Hrun1|]. split; [by rewrite Hrun2, Hsk1|].
    split.
    { unfold row_of. rewrite Henvs2, Henvs1, update_after_replace by done.
      apply row_of_replace; [done|]. unfold row_of in Hrow. by rewrite Hrow. }
    split; [exact Hv2|]. split; [congruence|].
    split; [simpl; congruence|]. repeat split.
  - rewrite rotateKey_public.
    destruct (rotatePublicKey_eq w id Hup) as (w1 & Hrun1 & Hup1 & Henvs1 & _).
    set (p := uuid_v4 (entropy w)) in *.
    assert (Hrow1 : row_of id w1 = Some (assign (PendingPublicKey (Some p)) row)).
    { unfold row_of. rewrite Henvs1, row_of_update by (intros e He; exact He).
      unfold row_of in Hrow. by rewrite Hrow. }
    assert (Hv1 : decrypted_view (assign (PendingPublicKey (Some p)) row)
                  = Some (Environment.set_pending_public_key (Some p) d)).
    { revert Hd. unfold decrypted_view. simpl.
      destruct (decrypt_field _ _ _); [|done].
      destruct (decrypt_field _ _ _); [|done].
      by intros [= <-]. }
    rewrite revertKey_public.
    destruct (revertPublicKey_eq w1 id _ _ Hup1 Hrow1 Hv1) as (w2 & Hrun2 & _ & Henvs2 & _).
    exists p, w1, w2, (assign (PendingPublicKey None) (assign (PendingPublicKey (Some p)) row)).
    split; [exact Hrun1|]. split; [by rewrite Hrun2; simpl; rewrite Hpk|].
    split.
    { unfold row_of. rewrite Henvs2, row_of_update by (intros e He; exact He).
      unfold row_of in Hrow1. by rewrite Hrow1. }
    repeat split.
  - intros Hnone. rewrite revertKey_secret.
    destruct (revertSecretKey_eq w id row d Hup Hrow Hd) as (w' & Hrun & _ & Henvs & _).
    exists w'. split; [exact Hrun|]. rewrite Henvs. apply update_noop.
    intros e He Heid. destruct (Hnone e He Heid) as (H1 & H2 & H3).
    destruct e; simpl in *. by subst.
  - intros Hnone. rewrite revertKey_public.
    destruct (revertPublicKey_eq w id row d Hup Hrow Hd) as (w' & Hrun & _ & Henvs & _).
    exists w'. split; [by rewrite Hrun, Hpk|]. rewrite Henvs. apply update_noop.
    intros e He Heid. pose proof (Hnone e He Heid) as H1.
    destruct e; simpl in *. by subst.
Qed.

End Rotation.

(** ** Resolution *)

Section Resolution.
Context {P : Platform}.

Lemma hashSecretKey_eq key w : hashSecretKey key w = (Ok (digest key), derived w).
Proof.
  unfold hashSecretKey, digest, derived, bind, modify, ret.
  destruct encryption_key; reflexivity.
Qed.

(** The hash looked up for a key, and the world once it is known. *)
Lemma bySecretKey_eq key w :
  let hit := match hashLocalCache w !! key with
             | Some h => JsString.truthy h
             | None => false
             end in
  let hash := match hashLocalCache w !! key with
              | Some h => if JsString.truthy h then h else digest key
              | None => digest key
              end in
  let w0 := if hit then w else derived w in
  getAccountAndEnvironment (BySecretKey key) w =
    if db_up w then
      match head (filter (fun r => Environment.secret_key_hashed r.2 = Some hash)
                         (joined (environments w) (accounts w))) with
      | None => (Ok None, counted w0)
      | Some (a, row) =>
          let w1 := if JsString.truthy hash
                    then set_hashLocalCache (<[key := hash]> (hashLocalCache w)) (counted w0)
                    else counted w0 in
          match decrypted_view row with
          | Some d => (Ok (Some (a, d)), w1)
          | None => (Throw DecryptionFailure, w1)
          end
      end
    else (Throw StoreUnavailable, counted w0).
Proof.
  intros hit hash w0. subst hit hash w0.
  unfold getAccountAndEnvironment, bind, gets, hashSecretKey, derived, digest,
    db_select, db_statement, decryptEnvironment, modify, ret, counted.
  destruct w as [up envs accts cache der calls wr rep ent]; simpl.
  destruct (cache !! key) as [h|]; [destruct (JsString.truthy h) eqn:Ht|].
  all: destruct encryption_key; simpl.
  all: destruct up; simpl; [|reflexivity].
  all: destruct (head _) as [[a row]|]; simpl; [|reflexivity].
  all: try rewrite Ht; try clear Ht.
  all: repeat match goal with
       | |- context [JsString.truthy ?x] => destruct (JsString.truthy x)
       end; simpl.
  all: destruct (decrypted_view row); reflexivity.
Qed.

Lemma byAccountAndName_eq accountId envName w :
  getAccountAndEnvironment (ByAccountAndName accountId envName) w =
    if db_up w then
      match head (filter (fun r => Environment.account_id r.2 = accountId
                                   ∧ Environment.name r.2 = envName)
                         (joined (environments w) (accounts w))) with
      | None => (Ok None, counted w)
      | Some (a, row) =>
          match decrypted_view row with
          | Some d => (Ok (Some (a, d)), counted w)
          | None => (Throw DecryptionFailure, counted w)
          end
      end
    else (Throw StoreUnavailable, counted w).
Proof.
  unfold getAccountAndEnvironment, bind.
  destruct (db_up w) eqn:Hup.
  - rewrite db_select_up by done.
    destruct (head _) as [[a row]|]; [|reflexivity].
    unfold decryptEnvironment, ret. destruct (decrypted_view row); reflexivity.
  - rewrite db_select_down by done. reflexivity.
Qed.

Lemma resolveFromVariable_eq prefix v w :
  resolveFromVariable prefix v w =
    if db_up w then
      match head (filter (fun e => Environment.name e = envName_of prefix v)
                         (environments w)) with
      | None => (Ok None, counted w)
      | Some e0 =>
          getAccountAndEnvironment
            (ByAccountAndName (Environment.account_id e0) (envName_of prefix v)) (counted w)
      end
    else (Throw StoreUnavailable, counted w).
Proof.
  unfold resolveFromVariable, bind. fold (envName_of prefix v).
  destruct (db_up w) eqn:Hup.
  - rewrite db_select_up by done.
    destruct (head _); reflexivity.
  - rewrite db_select_down by done. reflexivity.
Qed.

Lemma forEnvironmentVariables_eq prefix key vars otherwise :
  forEnvironmentVariables prefix key vars otherwise =
    match find (fun v => bool_decide (process_env_get v = Some key)) vars with
    | Some v => resolveFromVariable prefix v
    | None => otherwise
    end.
Proof.
  induction vars as [|v vars IH]; [reflexivity|].
  simpl. destruct (bool_decide _); [reflexivity|exact IH].
Qed.

Lemma bySecretKey_route key :
  getAccountAndEnvironmentBySecretKey key =
    if isCloud then getAccountAndEnvironment (BySecretKey key)
    else match matching_variable "NANGO_SECRET_KEY_" key with
         | Some v => resolveFromVariable "NANGO_SECRET_KEY_" v
         | None => getAccountAndEnvironment (BySecretKey key)
         end.
Proof.
  unfold getAccountAndEnvironmentBySecretKey, matching_variable.
  destruct isCloud; [reflexivity|]. simpl. apply forEnvironmentVariables_eq.
Qed.

(** The override never touches the cache or the derivation counter. *)
Lemma resolveFromVariable_frame prefix v w :
  hashLocalCache (resolveFromVariable prefix v w).2 = hashLocalCache w ∧
  derivations (resolveFromVariable prefix v w).2 = derivations w.
Proof.
  rewrite resolveFromVariable_eq.
  destruct (db_up w) eqn:Hup; [|done].
  destruct (head _); [|done].
  rewrite byAccountAndName_eq. simpl. rewrite Hup.
  destruct (head _) as [[a row]|]; [|done].
  destruct (decrypted_view row); done.
Qed.

End Resolution.

(** ** The join with the accounts *)

Section Join.

Lemma joined_cons e envs accts :
  joined (e :: envs) accts =
    ((fun a => (a, e)) <$> filter (fun a => Account.id a = Environment.account_id e) accts)
    ++ joined envs accts.
Proof. reflexivity. Qed.

Lemma joined_miss (R : Account.t * Environment.t -> Prop) `{!forall r, Decision (R r)}
    envs accts :
  (forall a e, e ∈ envs -> ¬ R (a, e)) ->
  head (filter R (joined envs accts)) = None.
Proof.
  intros Hno. induction envs as [|e envs IH]; [reflexivity|].
  rewrite joined_cons, filter_app.
  assert (Hnil : filter R ((fun a => (a, e)) <$>
            filter (fun a => Account.id a = Environment.account_id e) accts) = []).
  { induction (filter (fun a => Account.id a = Environment.account_id e) accts)
      as [|a l IHl]; [reflexivity|].
    rewrite fmap_cons, filter_cons, decide_False; [exact IHl|].
    apply Hno. left. }
  rewrite Hnil. simpl. apply IH. intros a e' He'. apply Hno. by right.
Qed.

Lemma joined_match (R : Account.t * Environment.t -> Prop) `{!forall r, Decision (R r)}
    envs accts a e :
  head (filter R (joined envs accts)) = Some (a, e) ->
  e ∈ envs ∧ R (a, e) ∧ a ∈ accts ∧ Account.id a = Environment.account_id e.
Proof.
  intros Hm%head_Some_elem_of. apply list_elem_of_filter in Hm as [HR Hin].
  unfold joined in Hin. apply list_elem_of_bind in Hin as (e1 & Hin & He1).
  apply list_elem_of_fmap in Hin as (a' & [= -> ->] & Ha').
  apply list_elem_of_filter in Ha' as [Hid Ha']. done.
Qed.

Lemma joined_unique (R : Account.t * Environment.t -> Prop) `{!forall r, Decision (R r)}
    envs accts a0 e0 :
  (forall a a' e, R (a, e) -> R (a', e)) ->
  (forall a e, e ∈ envs -> R (a, e) -> e = e0) ->
  e0 ∈ envs -> R (a0, e0) ->
  head (filter (fun a => Account.id a = Environment.account_id e0) accts) = Some a0 ->
  head (filter R (joined envs accts)) = Some (a0, e0).
Proof.
  intros Hirr Huniq Hin HR Hacct.
  induction envs as [|e envs IH]; [by apply elem_of_nil in Hin|].
  rewrite joined_cons, filter_app.
  destruct (decide (R (a0, e))) as [Hyes|Hno].
  - assert (e = e0) as -> by (apply (Huniq a0); [left|done]).
    destruct (filter (fun a => Account.id a = Environment.account_id e0) accts)
      as [|a l]; [done|].
    injection Hacct as ->.
    rewrite fmap_cons, filter_cons, decide_True by done. reflexivity.
  - assert (Hnil : filter R ((fun a => (a, e)) <$>
              filter (fun a => Account.id a = Environment.account_id e) accts) = []).
    { induction (filter (fun a => Account.id a = Environment.account_id e) accts)
        as [|a l IHl]; [reflexivity|].
      rewrite fmap_cons, filter_cons, decide_False; [exact IHl|].
      intros Hr. apply Hno. by apply (Hirr a). }
    rewrite Hnil. simpl. apply IH.
    + intros a e' He'. apply Huniq. by right.
    + apply elem_of_cons in Hin as [->|Hin]; [done|exact Hin].
Qed.

End Join.

(** ** The hash cache *)

Section Cache.
Context {P : Platform}.

(** C6: an attempt with a key whose hash no row stores leaves the cache
    exactly as it was, so a key without an entry still has none; and
    whenever an attempt changes the cache at all, the database was
    reachable, the query by hash matched a row, and the new entry is that
    key with the hash of the matched row. *)
Theorem cache_only_after_match (w : World) (key : string) :
  ((forall e, e ∈ environments w ->
      Environment.secret_key_hashed e ≠ Some (digest key)) ->
   hashLocalCache (getAccountAndEnvironmentBySecretKey key w).2 = hashLocalCache w ∧
   (hashLocalCache w !! key = None ->
    hashLocalCache (getAccountAndEnvironmentBySecretKey key w).2 !! key = None)) ∧
  (hashLocalCache (getAccountAndEnvironmentBySecretKey key w).2 ≠ hashLocalCache w ->
   exists a row h,
     db_up w = true ∧
     head (filter (fun r => Environment.secret_key_hashed r.2 = Some h)
                  (joined (environments w) (accounts w))) = Some (a, row) ∧
     row ∈ environments w ∧
     Environment.secret_key_hashed row = Some h ∧
     hashLocalCache (getAccountAndEnvironmentBySecretKey key w).2
       = <[key := h]> (hashLocalCache w)).
Proof.
  assert (Hderived : hashLocalCache (derived w) = hashLocalCache w).
  { unfold derived. destruct encryption_key; reflexivity. }
  assert (Hhash :
    (forall e, e ∈ environments w ->
       Environment.secret_key_hashed e ≠ Some (digest key)) ->
    hashLocalCache (getAccountAndEnvironment (BySecretKey key) w).2 = hashLocalCache w).
  { intros Hno. rewrite bySecretKey_eq.
    assert (Hmiss : forall a e, e ∈ environments w ->
              ¬ (fun r : Account.t * Environment.t =>
                   Environment.secret_key_hashed r.2 = Some (digest key)) (a, e)).
    { intros a e He. simpl. by apply Hno. }
    destruct (hashLocalCache w !! key) as [h|] eqn:Hc;
      [destruct (JsString.truthy h) eqn:Ht|].
    - (* a truthy hash is cached: storing it again changes nothing *)
      destruct (db_up w); [|reflexivity].
      destruct (head _) as [[a row]|]; [|reflexivity].
      simpl. rewrite Ht. destruct (decrypted_view row); simpl; by rewrite insert_id.
    - destruct (db_up w); [|exact Hderived]. by rewrite (joined_miss _ _ _ Hmiss).
    - destruct (db_up w); [|exact Hderived]. by rewrite (joined_miss _ _ _ Hmiss). }
  assert (Hpath :
    hashLocalCache (getAccountAndEnvironment (BySecretKey key) w).2 ≠ hashLocalCache w ->
    exists a row h,
      db_up w = true ∧
      head (filter (fun r => Environment.secret_key_hashed r.2 = Some h)
                   (joined (environments w) (accounts w))) = Some (a, row) ∧
      row ∈ environments w ∧
      Environment.secret_key_hashed row = Some h ∧
      hashLocalCache (getAccountAndEnvironment (BySecretKey key) w).2
        = <[key := h]> (hashLocalCache w)).
  { rewrite bySecretKey_eq.
    set (hash := match hashLocalCache w !! key with
                 | Some h => if JsString.truthy h then h else digest key
                 | None => digest key
                 end).
    set (w0 := if match hashLocalCache w !! key with
                  | Some h => JsString.truthy h
                  | None => false
                  end then w else derived w).
    assert (Hw0 : hashLocalCache w0 = hashLocalCache w).
    { subst w0. destruct (match hashLocalCache w !! key with
                          | Some h => JsString.truthy h | None => false end); done. }
    destruct (db_up w) eqn:Hup; [|simpl; intros H; by destruct H].
    destruct (head _) as [[a row]|] eqn:Hres; [|simpl; intros H; by destruct H].
    destruct (JsString.truthy hash).
    - intros _. exists a, row, hash. split; [done|]. split; [exact Hres|].
      apply joined_match in Hres as (Hin & Hh & _). simpl in Hh.
      split; [exact Hin|]. split; [exact Hh|].
      destruct (decrypted_view row); reflexivity.
    - destruct (decrypted_view row); simpl; intros H; by destruct H. }
  rewrite bySecretKey_route.
  destruct isCloud.
  - split; [|exact Hpath].
    intros Hno. rewrite (Hhash Hno). done.
  - destruct (matching_variable "NANGO_SECRET_KEY_" key) as [v|].
    + destruct (resolveFromVariable_frame "NANGO_SECRET_KEY_" v w) as [Hc _].
      split; [intros _; rewrite Hc; done|].
      intros H. by destruct H.
    + split; [|exact Hpath].
      intros Hno. rewrite (Hhash Hno). done.
Qed.

(** A successful resolution through the hash leaves the hash in the cache,
    unless no encryption key is configured. *)
Lemma bySecretKey_caches w key r w1 :
  (forall k salt, pbkdf2 k salt ≠ EmptyString) ->
  getAccountAndEnvironment (BySecretKey key) w = (Ok (Some r), w1) ->
  (exists h, hashLocalCache w1 !! key = Some h ∧ JsString.truthy h = true)
  ∨ encryption_key = None.
Proof.
  intros Hne. rewrite bySecretKey_eq.
  set (hash := match hashLocalCache w !! key with
               | Some h => if JsString.truthy h then h else digest key
               | None => digest key
               end).
  assert (Hhash : JsString.truthy hash = false -> encryption_key = None).
  { subst hash. unfold digest.
    destruct (hashLocalCache w !! key) as [h|];
      [destruct (JsString.truthy h) eqn:Ht; [congruence|]|].
    all: destruct encryption_key as [K|]; [|done].
    all: unfold JsString.truthy; intros Hf.
    all: apply negb_false_iff, bool_decide_eq_true in Hf.
    all: by apply Hne in Hf. }
  destruct (db_up w); [|discriminate].
  destruct (head _) as [[a row]|]; [|discriminate].
  destruct (JsString.truthy hash) eqn:Ht.
  - destruct (decrypted_view row); [|discriminate].
    intros [= _ <-]. left. exists hash. simpl. by rewrite lookup_insert_eq.
  - intros _. right. by apply Hhash.
Qed.

(** C7: when a key resolves twice in a row, the second call does not run
    the derivation (its counter stays put), and, unless the override of the
    self-hosted mode answered or no encryption key is configured, the hash is
    in the cache after the first call. The derivation is taken never to
    yield the empty string, which the base64 encoding of 32 bytes never is. *)
Theorem second_resolution_skips_derivation
    (w w1 w2 : World) (key : string) (r1 r2 : Resolved) :
  (forall k salt, pbkdf2 k salt ≠ EmptyString) ->
  getAccountAndEnvironmentBySecretKey key w = (Ok (Some r1), w1) ->
  getAccountAndEnvironmentBySecretKey key w1 = (Ok (Some r2), w2) ->
  derivations w2 = derivations w1 ∧
  (¬ overridden "NANGO_SECRET_KEY_" key -> encryption_key ≠ None ->
   exists h, hashLocalCache w1 !! key = Some h ∧ JsString.truthy h = true).
Proof.
  intros Hne.
  assert (Hpath :
    getAccountAndEnvironment (BySecretKey key) w = (Ok (Some r1), w1) ->
    getAccountAndEnvironment (BySecretKey key) w1 = (Ok (Some r2), w2) ->
    derivations w2 = derivations w1 ∧
    (encryption_key ≠ None ->
     exists h, hashLocalCache w1 !! key = Some h ∧ JsString.truthy h = true)).
  { intros H1 H2.
    pose proof (bySecretKey_caches w key r1 w1 Hne H1) as Hafter.
    split; [|by destruct Hafter].
    clear H1. revert H2. rewrite bySecretKey_eq.
    destruct (db_up w1); [|discriminate].
    destruct (head _) as [[a row]|]; [|discriminate].
    destruct (decrypted_view row); [|discriminate].
    destruct Hafter as [(h & -> & ->)|Hnokey].
    - simpl. intros [= _ <-]. destruct (JsString.truthy h); reflexivity.
    - unfold derived. rewrite Hnokey. simpl. intros [= _ <-].
      repeat match goal with
      | |- context [if ?b then _ else _] => destruct b
      | |- context [match ?o with Some _ => _ | None => _ end] => destruct o
      end; reflexivity. }
  rewrite !bySecretKey_route. unfold overridden.
  destruct isCloud; [intros H1 H2; destruct (Hpath H1 H2); auto|].
  destruct (matching_variable "NANGO_SECRET_KEY_" key) as [v|];
    [|intros H1 H2; destruct (Hpath H1 H2); auto].
  intros _ H2.
  destruct (resolveFromVariable_frame "NANGO_SECRET_KEY_" v w1) as [_ Hd].
  rewrite H2 in Hd. split; [exact Hd|].
  intros Hno. destruct Hno. split; [done|by eexists].
Qed.

End Cache.

(** ** The override of the self-hosted mode *)

Section Override.
Context {P : Platform}.

(** C8, as the code has it: in self-hosted mode the first variable with the
    secret-key prefix whose value is the presented key decides; the
    environment name is the lowercased rest of its name, the account id is
    read from the first row with that name, whichever account owns it, and
    the pair found by that account id and name is returned; the hash is
    neither derived nor cached. *)
Theorem override_resolves_by_name
    (w : World) (key v : string) (e0 row d : Environment.t) (a : Account.t) :
  isCloud = false ->
  matching_variable "NANGO_SECRET_KEY_" key = Some v ->
  db_up w = true ->
  head (filter (fun e => Environment.name e = envName_of "NANGO_SECRET_KEY_" v)
               (environments w)) = Some e0 ->
  head (filter (fun r => Environment.account_id r.2 = Environment.account_id e0
                         ∧ Environment.name r.2 = envName_of "NANGO_SECRET_KEY_" v)
               (joined (environments w) (accounts w))) = Some (a, row) ->
  decrypted_view row = Some d ->
  exists w',
    getAccountAndEnvironmentBySecretKey key w = (Ok (Some (a, d)), w') ∧
    Environment.name d = envName_of "NANGO_SECRET_KEY_" v ∧
    Environment.account_id d = Environment.account_id e0 ∧
    Account.id a = Environment.account_id e0 ∧
    derivations w' = derivations w ∧
    hashLocalCache w' = hashLocalCache w.
Proof.
  intros Hcloud Hv Hup He0 Hjoin Hd.
  rewrite bySecretKey_route, Hcloud, Hv, resolveFromVariable_eq, Hup, He0.
  rewrite byAccountAndName_eq. simpl. rewrite Hup, Hjoin, Hd.
  exists (counted (counted w)). split; [reflexivity|].
  apply joined_match in Hjoin as (_ & [Hacc Hname] & _ & Hid). simpl in Hacc, Hname.
  apply decrypted_view_frame in Hd as (_ & Hdacc & Hdname & _).
  repeat split; congruence.
Qed.

(** C10: in self-hosted mode, when the variable at which the scan stops
    names an environment that no row has, the resolver answers [null] after
    that one lookup, for the secret and for the public key alike: nothing is
    derived, nothing is cached, the lookup by hash or by public key is not
    tried. *)
Theorem override_without_row (w : World) (key v prefix : string) :
  isCloud = false ->
  db_up w = true ->
  (forall e, e ∈ environments w -> Environment.name e ≠ envName_of prefix v) ->
  (prefix = "NANGO_SECRET_KEY_" ->
   matching_variable prefix key = Some v ->
   getAccountAndEnvironmentBySecretKey key w = (Ok None, counted w)) ∧
  (prefix = "NANGO_PUBLIC_KEY_" ->
   matching_variable prefix key = Some v ->
   getAccountAndEnvironmentByPublicKey key w = (Ok None, counted w)) ∧
  derivations (counted w) = derivations w ∧
  hashLocalCache (counted w) = hashLocalCache w ∧
  db_calls (counted w) = S (db_calls w).
Proof.
  intros Hcloud Hup Hno.
  assert (Hnone : head (filter (fun e => Environment.name e = envName_of prefix v)
                               (environments w)) = None).
  { destruct (head _) as [e|] eqn:He; [|done].
    apply head_Some_elem_of, list_elem_of_filter in He as [Hname Hin].
    by destruct (Hno e Hin). }
  split; [|split; [|done]].
  - intros -> Hv. rewrite bySecretKey_route, Hcloud, Hv, resolveFromVariable_eq, Hup, Hnone.
    reflexivity.
  - intros -> Hv. unfold getAccountAndEnvironmentByPublicKey. rewrite Hcloud. simpl.
    rewrite forEnvironmentVariables_eq. unfold matching_variable in Hv. rewrite Hv.
    rewrite resolveFromVariable_eq, Hup, Hnone. reflexivity.
Qed.

End Override.

(** ** Rotation followed by activation *)

Section Promotion.
Context {P : Platform}.

Lemma derived_frame w :
  db_up (derived w) = db_up w ∧
  environments (derived w) = environments w ∧
  accounts (derived w) = accounts w ∧
  hashLocalCache (derived w) = hashLocalCache w ∧
  writes (derived w) = writes w.
Proof. unfold derived. destruct encryption_key; repeat split. Qed.

Lemma activateSecretKey_eq w id raw d pending :
  db_up w = true -> row_of id w = Some raw -> decrypted_view raw = Some d ->
  Environment.pending_secret_key d = Some pending ->
  let c := PromoteSecret (Environment.pending_secret_key raw)
             (Environment.pending_secret_key_iv raw)
             (Environment.pending_secret_key_tag raw) (Some (digest pending)) in
  exists w',
    activateSecretKey id w = (Ok true, w') ∧
    db_up w' = true ∧
    environments w' = update_where_id id c (environments w) ∧
    accounts w' = accounts w ∧
    hashLocalCache w' = hashLocalCache w ∧
    derivations w' = derivations (derived w) ∧
    writes w' = writes w ++ [(id, c)].
Proof.
  intros Hup Hrow Hd Hp c. unfold activateSecretKey, bind.
  rewrite getRawById_eq, Hup, Hrow. unfold decryptEnvironment. rewrite Hd. unfold ret at 1.
  rewrite Hp, hashSecretKey_eq. unfold ret at 1.
  destruct (derived_frame (counted w)) as (Hup' & Henvs' & Haccts' & Hcache' & Hwrites').
  rewrite db_update_up by (rewrite Hup'; exact Hup). fold c.
  destruct (promoted_view raw d (Some (digest pending)) Hd) as (v & Hv & _). fold c in Hv.
  rewrite getById_eq. simpl. rewrite Hup'. simpl. rewrite Hup.
  unfold row_of. simpl. rewrite Henvs'. simpl.
  rewrite row_of_update by (intros e He; exact He).
  unfold row_of in Hrow. rewrite Hrow.
  change (assign c <$> Some raw) with (Some (assign c raw)). cbv beta iota. rewrite Hv.
  eexists; split; [reflexivity|]. simpl.
  rewrite Hup', Haccts', Hcache', Hwrites'. repeat split; try done.
  unfold derived. destruct encryption_key; reflexivity.
Qed.

(** A sound cache and the derivation agree on the hash that is looked up. *)
Lemma looked_up_hash w key :
  cache_sound w ->
  match hashLocalCache w !! key with
  | Some h => if JsString.truthy h then h else digest key
  | None => digest key
  end = digest key.
Proof.
  intros Hs. destruct (hashLocalCache w !! key) as [h|] eqn:Hc; [|done].
  destruct (JsString.truthy h); [|done]. exact (Hs key h Hc).
Qed.

(** Resolution keeps the cache sound: what it stores is the hash it looked
    up, which on a sound cache is the hash of the key. *)
Lemma cache_sound_resolve w key :
  cache_sound w -> cache_sound (getAccountAndEnvironmentBySecretKey key w).2.
Proof.
  intros Hs.
  assert (Hderived : hashLocalCache (derived w) = hashLocalCache w)
    by (destruct (derived_frame w) as (_ & _ & _ & H & _); exact H).
  assert (Hins : cache_sound
            (set_hashLocalCache (<[key := digest key]> (hashLocalCache w)) w)).
  { intros k h. simpl. destruct (decide (key = k)) as [<-|Hne].
    - rewrite lookup_insert_eq. by intros [= <-].
    - rewrite lookup_insert_ne by done. apply Hs. }
  assert (Hstep : forall w', hashLocalCache w' = hashLocalCache w
                     ∨ hashLocalCache w' = <[key := digest key]> (hashLocalCache w) ->
                     cache_sound w').
  { intros w' [H|H] k h; rewrite H; [apply Hs|apply Hins]. }
  rewrite bySecretKey_route.
  assert (Hpath : cache_sound (getAccountAndEnvironment (BySecretKey key) w).2).
  { apply Hstep. rewrite bySecretKey_eq, (looked_up_hash w key Hs).
    set (w0 := if match hashLocalCache w !! key with
                  | Some h => JsString.truthy h
                  | None => false
                  end then w else derived w).
    assert (Hw0 : hashLocalCache w0 = hashLocalCache w).
    { subst w0. destruct (match hashLocalCache w !! key with
                          | Some h => JsString.truthy h | None => false end); done. }
    destruct (db_up w); [|by left].
    destruct (head _) as [[a row]|]; [|by left].
    destruct (JsString.truthy (digest key)); destruct (decrypted_view row); simpl; auto. }
  destruct isCloud; [exact Hpath|].
  destruct (matching_variable "NANGO_SECRET_KEY_" key) as [v|]; [|exact Hpath].
  apply Hstep. left. apply resolveFromVariable_frame.
Qed.

(** C3: on an existing environment, [rotateKey] followed by [activateKey]
    promotes the pending secret in one [update]: the row then stores the
    hash of the new value, freshly derived, and an empty pending slot; the
    new value resolves to that environment and the old one to nothing. This
    is stated for keys that the override of the self-hosted mode does not
    answer, a cache that holds hashes of its keys, an account for the row,
    and hashes that tell the two values apart from each other and from the
    other rows. *)
Theorem rotate_then_activate
    (w : World) (id : Z) (row d : Environment.t) (old : string) (a0 : Account.t) :
  let new := uuid_v4 (entropy w) in
  cipher_roundtrip ->
  cache_sound w ->
  db_up w = true ->
  row_of id w = Some row ->
  decrypted_view row = Some d ->
  Environment.secret_key d = Some old ->
  head (filter (fun a => Account.id a = Environment.account_id row) (accounts w)) = Some a0 ->
  ¬ overridden "NANGO_SECRET_KEY_" new ->
  ¬ overridden "NANGO_SECRET_KEY_" old ->
  digest old ≠ digest new ->
  (forall e, e ∈ environments w -> Environment.id e ≠ id ->
     Environment.secret_key_hashed e ≠ Some (digest new) ∧
     Environment.secret_key_hashed e ≠ Some (digest old)) ->
  exists w1 w2 w3 w4 c row2 v2,
    rotateKey id "secret" w = (Ok (Some new), w1) ∧
    activateKey id "secret" w1 = (Ok true, w2) ∧
    writes w2 = writes w1 ++ [(id, c)] ∧
    derivations w2 = derivations (derived w1) ∧
    row_of id w2 = Some row2 ∧
    Environment.secret_key_hashed row2 = Some (digest new) ∧
    Environment.pending_secret_key row2 = None ∧
    Environment.pending_secret_key_iv row2 = None ∧
    Environment.pending_secret_key_tag row2 = None ∧
    decrypted_view row2 = Some v2 ∧
    Environment.secret_key v2 = Some new ∧
    Environment.id v2 = id ∧
    getAccountAndEnvironmentBySecretKey new w2 = (Ok (Some (a0, v2)), w3) ∧
    getAccountAndEnvironmentBySecretKey old w2 = (Ok None, w4).
Proof.
  intros new Hrt Hsound Hup Hrow Hd Hold Hacct Hnew Holdkey Hdistinct Hothers.
  pose proof (decrypted_view_frame _ _ Hd) as (Hid & Hacc & _).
  assert (Hrowid : Environment.id row = id).
  { unfold row_of in Hrow. apply head_Some_elem_of in Hrow.
    by apply list_elem_of_filter in Hrow as [? _]. }
  assert (Hsome : is_Some (head (where_id id (environments w)))).
  { unfold row_of in Hrow. by rewrite Hrow. }
  (* rotation *)
  rewrite rotateKey_secret.
  destruct (rotateSecretKey_eq w id row d Hup Hrow Hd)
    as (w1 & Hrun1 & Hup1 & Henvs1 & Haccts1 & Hcache1 & _ & _).
  fold new in Hrun1, Henvs1.
  set (enc := sealed (S (entropy w)) (Environment.set_pending_secret_key (Some new) d)) in *.
  destruct (sealed_view (S (entropy w)) (Environment.set_pending_secret_key (Some new) d) Hrt)
    as (v1 & Hv1 & _ & Hp1).
  pose proof (sealed_frame (S (entropy w)) (Environment.set_pending_secret_key (Some new) d))
    as (Hid1 & Hacc1 & _).
  fold enc in Hv1, Hid1, Hacc1. simpl in Hp1, Hid1, Hacc1.
  assert (Hencid : Environment.id enc = id) by congruence.
  assert (Hrow1 : row_of id w1 = Some enc).
  { unfold row_of. rewrite Henvs1. by apply row_of_replace. }
  (* activation *)
  rewrite activateKey_secret.
  destruct (activateSecretKey_eq w1 id enc v1 new Hup1 Hrow1 Hv1 Hp1)
    as (w2 & Hrun2 & Hup2 & Henvs2 & Haccts2 & Hcache2 & Hder2 & Hwrites2).
  set (c := PromoteSecret (Environment.pending_secret_key enc)
              (Environment.pending_secret_key_iv enc)
              (Environment.pending_secret_key_tag enc) (Some (digest new))) in *.
  destruct (promoted_view enc v1 (Some (digest new)) Hv1) as (v2 & Hv2 & Hsk2 & _).
  fold c in Hv2.
  set (row2 := assign c enc) in *.
  rewrite Henvs1, update_after_replace in Henvs2 by done. fold row2 in Henvs2.
  assert (Hrow2id : Environment.id row2 = id) by exact Hencid.
  assert (Hin2 : row2 ∈ environments w2).
  { rewrite Henvs2. by apply replace_elem_of. }
  assert (Hsound2 : cache_sound w2).
  { unfold cache_sound. rewrite Hcache2, Hcache1. exact Hsound. }
  assert (Hroute : forall key, ¬ overridden "NANGO_SECRET_KEY_" key ->
            getAccountAndEnvironmentBySecretKey key
            = getAccountAndEnvironment (BySecretKey key)).
  { intros key Hno. rewrite bySecretKey_route. unfold overridden in Hno.
    destruct isCloud; [done|].
    destruct (matching_variable "NANGO_SECRET_KEY_" key); [|done].
    destruct Hno. split; [done|by eexists]. }
  eexists w1, w2, _, _, c, row2, v2.
  split; [exact Hrun1|]. split; [exact Hrun2|]. split; [exact Hwrites2|].
  split; [exact Hder2|].
  split; [unfold row_of; rewrite Henvs2; by apply row_of_replace|].
  split; [reflexivity|]. do 3 (split; [reflexivity|]).
  split; [exact Hv2|]. split; [congruence|].
  split; [apply decrypted_view_frame in Hv2 as (-> & _); exact Hrow2id|].
  split.
  - rewrite (Hroute new Hnew), bySecretKey_eq, (looked_up_hash w2 new Hsound2), Hup2.
    rewrite (joined_unique _ _ _ a0 row2).
    + rewrite Hv2. reflexivity.
    + intros a a' e He. exact He.
    + intros a e He Hh. simpl in Hh. rewrite Henvs2 in He.
      apply elem_of_replace in He as [->|[He Hne]]; [done|].
      by destruct (Hothers e He Hne) as [H1 _].
    + exact Hin2.
    + reflexivity.
    + rewrite Haccts2, Haccts1.
      replace (Environment.account_id row2) with (Environment.account_id row); [done|].
      change (Environment.account_id row2) with (Environment.account_id enc). congruence.
  - rewrite (Hroute old Holdkey), bySecretKey_eq, (looked_up_hash w2 old Hsound2), Hup2.
    rewrite joined_miss; [reflexivity|].
    intros a e He Hh. simpl in Hh. rewrite Henvs2 in He.
    apply elem_of_replace in He as [->|[He Hne]].
    + simpl in Hh. congruence.
    + by destruct (Hothers e He Hne) as [_ H2].
Qed.

End Promotion.

(** ** The sample deployment *)

Lemma sample_roundtrip_cloud : @cipher_roundtrip Sample.cloud.
Proof. intros n plain. reflexivity. Qed.

Lemma sample_pbkdf2_nonempty (k salt : string) : Sample.pbkdf2 k salt ≠ EmptyString.
Proof. unfold Sample.pbkdf2. intros H. discriminate H. Qed.

Lemma sample_cache_sound (P : Platform) up envs : @cache_sound P (Sample.world up envs).
Proof. intros key h H. simpl in H. by rewrite lookup_empty in H. Qed.

(** Case analysis on the rows of a sample table. *)
Ltac sample_rows :=
  let e := fresh "e" in
  let He := fresh "He" in
  intros e He; apply list_elem_of_In in He; simpl in He;
  repeat (destruct He as [<-|He]; [|]); [..|destruct He].

Lemma rotateSecretKey_writes_plaintext_witness :
  exists p enc w',
    @rotateKey Sample.cloud 1 "secret" (Sample.world true [Sample.dev; Sample.prod])
      = (Ok (Some p), w') ∧
    writes w' = [(1, PendingSecretKey (Some p)); (1, WholeRow enc)] ∧
    Environment.pending_secret_key (assign (PendingSecretKey (Some p)) Sample.dev) = Some p.
Proof.
  exact (@rotateSecretKey_writes_plaintext Sample.cloud
           (Sample.world true [Sample.dev; Sample.prod]) 1 Sample.dev
           _
           eq_refl eq_refl eq_refl).
Defined.

Lemma rotatePublicKey_unknown_id_witness :
  exists w',
    @rotateKey Sample.cloud 99 "public" (Sample.world true [Sample.dev; Sample.prod])
      = (Ok (Some "0f8fad5b"), w') ∧
    environments w' = [Sample.dev; Sample.prod] ∧
    (@rotateKey Sample.cloud 99 "secret" (Sample.world true [Sample.dev; Sample.prod])).1
      = Ok None.
Proof.
  exact (@rotatePublicKey_unknown_id Sample.cloud
           (Sample.world true [Sample.dev; Sample.prod]) 99 eq_refl eq_refl).
Defined.

Lemma rotate_then_revert_witness :
  (exists p w1 w2 row2 v2,
     @rotateKey Sample.cloud 1 "secret" (Sample.world true [Sample.dev; Sample.prod])
       = (Ok (Some p), w1) ∧
     @revertKey Sample.cloud 1 "secret" w1 = (Ok (Some "sk-dev"), w2) ∧
     @row_of 1 w2 = Some row2 ∧
     @decrypted_view Sample.cloud row2 = Some v2 ∧
     Environment.secret_key v2 = Some "sk-dev" ∧
     Environment.secret_key_hashed row2 = Some "H(sk-dev,master)" ∧
     Environment.pending_secret_key row2 = None ∧
     Environment.pending_secret_key_iv row2 = None ∧
     Environment.pending_secret_key_tag row2 = None) ∧
  (exists w',
     @revertKey Sample.cloud 1 "secret" (Sample.world true [Sample.dev; Sample.prod])
       = (Ok (Some "sk-dev"), w') ∧
     environments w' = [Sample.dev; Sample.prod]) ∧
  (exists w',
     @revertKey Sample.cloud 1 "public" (Sample.world true [Sample.dev; Sample.prod])
       = (Ok (Some "pk-dev"), w') ∧
     environments w' = [Sample.dev; Sample.prod]).
Proof.
  destruct (@rotate_then_revert Sample.cloud
              (Sample.world true [Sample.dev; Sample.prod]) 1 Sample.dev _
              sample_roundtrip_cloud eq_refl eq_refl eq_refl)
    as (Hsecret & _ & Hnone_s & Hnone_p).
  split; [exact Hsecret|]. split.
  - apply Hnone_s. sample_rows; intros _; repeat split.
  - apply Hnone_p. sample_rows; intros _; reflexivity.
Defined.

Lemma cache_only_after_match_witness :
  (hashLocalCache
     (@getAccountAndEnvironmentBySecretKey Sample.cloud "guess"
        (Sample.world true [Sample.dev; Sample.prod])).2 = ∅ ∧
   hashLocalCache
     (@getAccountAndEnvironmentBySecretKey Sample.cloud "guess"
        (Sample.world true [Sample.dev; Sample.prod])).2 !! "guess" = None) ∧
  (exists a row h,
     head (filter (fun r => Environment.secret_key_hashed r.2 = Some h)
                  (joined [Sample.dev; Sample.prod] [Sample.acme; Sample.globex]))
       = Some (a, row) ∧
     hashLocalCache
       (@getAccountAndEnvironmentBySecretKey Sample.cloud "sk-dev"
          (Sample.world true [Sample.dev; Sample.prod])).2 = <[ "sk-dev" := h ]> ∅).
Proof.
  split.
  - destruct (proj1 (@cache_only_after_match Sample.cloud
                       (Sample.world true [Sample.dev; Sample.prod]) "guess"))
      as [Hsame Hnone].
    + sample_rows; vm_compute; discriminate.
    + split; [exact Hsame|]. apply Hnone. reflexivity.
  - destruct (proj2 (@cache_only_after_match Sample.cloud
                       (Sample.world true [Sample.dev; Sample.prod]) "sk-dev"))
      as (a & row & h & _ & Hmatch & _ & _ & Hcache).
    + intros H. apply (f_equal (fun m : gmap string string => m !! "sk-dev")) in H.
      vm_compute in H. discriminate H.
    + exists a, row, h. split; [exact Hmatch|exact Hcache].
Defined.

Lemma second_resolution_skips_derivation_witness :
  exists r1 w1 r2 w2,
    @getAccountAndEnvironmentBySecretKey Sample.cloud "sk-dev"
      (Sample.world true [Sample.dev; Sample.prod]) = (Ok (Some r1), w1) ∧
    @getAccountAndEnvironmentBySecretKey Sample.cloud "sk-dev" w1 = (Ok (Some r2), w2) ∧
    derivations w1 = 1%nat ∧
    derivations w2 = derivations w1 ∧
    hashLocalCache w1 !! "sk-dev" = Some "H(sk-dev,master)".
Proof.
  eexists _, _, _, _.
  split; [vm_compute; reflexivity|].
  split; [vm_compute; reflexivity|].
  split; [reflexivity|].
  split; [|reflexivity].
  refine (proj1 (@second_resolution_skips_derivation Sample.cloud
                   (Sample.world true [Sample.dev; Sample.prod]) _ _ "sk-dev" _ _
                   sample_pbkdf2_nonempty _ _));
    vm_compute; reflexivity.
Defined.

Lemma override_resolves_by_name_witness :
  exists d w',
    @getAccountAndEnvironmentBySecretKey Sample.selfHosted "abc123"
      (Sample.world true [Sample.dev; Sample.prod]) = (Ok (Some (Sample.acme, d)), w') ∧
    Environment.name d = "dev" ∧
    Environment.account_id d = 1 ∧
    Account.id Sample.acme = 1 ∧
    derivations w' = 0%nat ∧
    hashLocalCache w' = ∅.
Proof.
  eexists.
  exact (@override_resolves_by_name Sample.selfHosted
           (Sample.world true [Sample.dev; Sample.prod]) "abc123" "NANGO_SECRET_KEY_DEV"
           Sample.dev Sample.dev _ Sample.acme
           eq_refl eq_refl eq_refl eq_refl eq_refl eq_refl).
Defined.

(** C8 fails as stated: the account is not a fixed one. With two variables
    set, the two keys resolve to environments of two different accounts,
    each the owner of the first row that carries the name. *)
Lemma override_account_is_not_fixed :
  (exists e, (@getAccountAndEnvironmentBySecretKey Sample.selfHosted "abc123"
                (Sample.world true [Sample.dev; Sample.prod])).1
             = Ok (Some (Sample.acme, e))) ∧
  (exists e, (@getAccountAndEnvironmentBySecretKey Sample.selfHosted "xyz789"
                (Sample.world true [Sample.dev; Sample.prod])).1
             = Ok (Some (Sample.globex, e))) ∧
  ¬ (exists defaultAccount : Z,
       forall key a e,
         (@getAccountAndEnvironmentBySecretKey Sample.selfHosted key
            (Sample.world true [Sample.dev; Sample.prod])).1 = Ok (Some (a, e)) ->
         Account.id a = defaultAccount).
Proof.
  split; [eexists; vm_compute; reflexivity|].
  split; [eexists; vm_compute; reflexivity|].
  intros [dflt H].
  assert (H1 : Account.id Sample.acme = dflt)
    by (eapply (H "abc123"); vm_compute; reflexivity).
  assert (H2 : Account.id Sample.globex = dflt)
    by (eapply (H "xyz789"); vm_compute; reflexivity).
  simpl in H1, H2. congruence.
Qed.

Lemma override_without_row_witness :
  @getAccountAndEnvironmentBySecretKey Sample.selfHosted "stg456"
    (Sample.world true [Sample.dev; Sample.prod])
  = (Ok None, counted (Sample.world true [Sample.dev; Sample.prod])) ∧
  @getAccountAndEnvironmentByPublicKey Sample.selfHosted "pub456"
    (Sample.world true [Sample.dev; Sample.prod])
  = (Ok None, counted (Sample.world true [Sample.dev; Sample.prod])).
Proof.
  split.
  - apply (proj1 (@override_without_row Sample.selfHosted
                    (Sample.world true [Sample.dev; Sample.prod]) "stg456"
                    "NANGO_SECRET_KEY_STAGING" "NANGO_SECRET_KEY_"
                    eq_refl eq_refl
                    ltac:(sample_rows; vm_compute; discriminate)));
      reflexivity.
  - apply (proj1 (proj2 (@override_without_row Sample.selfHosted
                    (Sample.world true [Sample.dev; Sample.prod]) "pub456"
                    "NANGO_PUBLIC_KEY_STAGING" "NANGO_PUBLIC_KEY_"
                    eq_refl eq_refl
                    ltac:(sample_rows; vm_compute; discriminate))));
      reflexivity.
Defined.

Lemma rotate_then_activate_witness :
  exists w1 w2 w3 w4 c row2 v2,
    @rotateKey Sample.cloud 1 "secret" (Sample.world true [Sample.dev; Sample.prod])
      = (Ok (Some "0f8fad5b"), w1) ∧
    @activateKey Sample.cloud 1 "secret" w1 = (Ok true, w2) ∧
    writes w2 = writes w1 ++ [(1, c)] ∧
    derivations w2 = derivations (@derived Sample.cloud w1) ∧
    @row_of 1 w2 = Some row2 ∧
    Environment.secret_key_hashed row2 = Some "H(0f8fad5b,master)" ∧
    Environment.pending_secret_key row2 = None ∧
    Environment.pending_secret_key_iv row2 = None ∧
    Environment.pending_secret_key_tag row2 = None ∧
    @decrypted_view Sample.cloud row2 = Some v2 ∧
    Environment.secret_key v2 = Some "0f8fad5b" ∧
    Environment.id v2 = 1 ∧
    @getAccountAndEnvironmentBySecretKey Sample.cloud "0f8fad5b" w2
      = (Ok (Some (Sample.acme, v2)), w3) ∧
    @getAccountAndEnvironmentBySecretKey Sample.cloud "sk-dev" w2 = (Ok None, w4).
Proof.
  apply (@rotate_then_activate Sample.cloud
           (Sample.world true [Sample.dev; Sample.prod]) 1 Sample.dev _ "sk-dev" Sample.acme
           sample_roundtrip_cloud (sample_cache_sound _ _ _) eq_refl eq_refl eq_refl
           eq_refl eq_refl).
  - intros [H _]. discriminate H.
  - intros [H _]. discriminate H.
  - vm_compute. discriminate.
  - sample_rows.
    + intros H. by destruct H.
    + intros _. split; vm_compute; discriminate.
Defined.

(** ** What operations leave alone *)

Section Frames.
Context {P : Platform}.

Lemma preserves_ret {A} (R : World -> World -> Prop) `{!Reflexive R} (a : A) :
  preserves R (ret a).
Proof. intros w. simpl. reflexivity. Qed.

Lemma preserves_throw {A} (R : World -> World -> Prop) `{!Reflexive R} (e : exn) :
  preserves R (@throw A e).
Proof. intros w. simpl. reflexivity. Qed.

Lemma preserves_bind {A B} (R : World -> World -> Prop) `{!Transitive R}
    (c : M A) (k : A -> M B) :
  preserves R c -> (forall a, preserves R (k a)) -> preserves R (bind c k).
Proof.
  intros Hc Hk w. unfold bind. specialize (Hc w).
  destruct (c w) as [[a|e] w1]; simpl in *; [|exact Hc].
  etrans; [exact Hc|apply Hk].
Qed.

Lemma preserves_try_catch {A} (R : World -> World -> Prop) `{!Transitive R}
    (c : M A) (h : exn -> M A) :
  preserves R c -> (forall e, preserves R (h e)) -> preserves R (try_catch c h).
Proof.
  intros Hc Hh w. unfold try_catch. specialize (Hc w).
  destruct (c w) as [[a|e] w1]; simpl in *; [exact Hc|].
  etrans; [exact Hc|apply Hh].
Qed.

(** A step that only moves a counter or the report log. *)
Lemma preserves_statement {A} (R : World -> World -> Prop) `{!Transitive R}
    (run : World -> A * World) :
  (forall w, R w (counted w)) -> (forall w, R w (run w).2) ->
  preserves R (db_statement run).
Proof.
  intros Hcount Hrun w. unfold db_statement.
  destruct (db_up w); [|apply Hcount].
  specialize (Hrun (counted w)). destruct (run (counted w)) as [a w2]. simpl in *.
  etrans; [apply Hcount|exact Hrun].
Qed.

#[global] Instance others_kept_refl id : Reflexive (others_kept id).
Proof. intros l. unfold others_kept. induction l; constructor; auto. Qed.

#[global] Instance others_kept_trans id : Transitive (others_kept id).
Proof.
  intros l1 l2 l3 H12. revert l3. unfold others_kept in *.
  induction H12 as [|e1 e2 l1 l2 He H12 IH]; intros l3 H23.
  - inversion H23. constructor.
  - inversion H23 as [|a e3 la l3' Hab H23']; subst. constructor; [|by apply IH].
    intros Hid. pose proof (He Hid) as ->. by apply Hab.
Qed.

#[global] Instance beside_refl id : Reflexive (beside id).
Proof. intros w. repeat split. reflexivity. Qed.

#[global] Instance beside_trans id : Transitive (beside id).
Proof.
  intros w1 w2 w3 (H1 & H2 & H3) (H1' & H2' & H3'). repeat split.
  - etrans; eassumption.
  - congruence.
  - congruence.
Qed.

#[global] Instance unwritten_refl : Reflexive unwritten.
Proof. intros w. repeat split. Qed.

#[global] Instance unwritten_trans : Transitive unwritten.
Proof.
  intros w1 w2 w3 (? & ? & ? & ? & ?) (? & ? & ? & ? & ?). repeat split; congruence.
Qed.

#[global] Instance unhashed_refl : Reflexive unhashed.
Proof. intros w. repeat split. Qed.

#[global] Instance unhashed_trans : Transitive unhashed.
Proof.
  intros w1 w2 w3 (H1 & ? & ?) (H1' & ? & ?). split; [etrans; eassumption|].
  split; congruence.
Qed.

Lemma others_kept_update id c envs : others_kept id envs (update_where_id id c envs).
Proof.
  unfold others_kept, update_where_id. induction envs as [|e envs IH]; [constructor|].
  rewrite fmap_cons. constructor; [|exact IH].
  intros Hid. by rewrite decide_False.
Qed.

End Frames.

Section FramePrimitives.
Context {P : Platform}.

Lemma beside_select {A} id (q : list Environment.t -> list Account.t -> A) :
  preserves (beside id) (db_select q).
Proof. apply preserves_statement; [apply _| |]; intros w; repeat split; reflexivity. Qed.

Lemma beside_update id c : preserves (beside id) (db_update id c).
Proof.
  apply preserves_statement; [apply _| |]; intros w; repeat split; try reflexivity.
  simpl. apply others_kept_update.
Qed.

Lemma beside_draw id : preserves (beside id) draw.
Proof. intros w. repeat split. reflexivity. Qed.

Lemma beside_report id e : preserves (beside id) (report e).
Proof. intros w. repeat split. reflexivity. Qed.

Lemma beside_hashSecretKey id key : preserves (beside id) (hashSecretKey key).
Proof.
  intros w. rewrite hashSecretKey_eq. simpl. unfold derived.
  destruct encryption_key; repeat split; reflexivity.
Qed.

Lemma beside_hashSecretKey_null id : preserves (beside id) hashSecretKey_null.
Proof. intros w. unfold hashSecretKey_null. destruct encryption_key; repeat split; reflexivity. Qed.

Lemma beside_decryptEnvironment id e : preserves (beside id) (decryptEnvironment e).
Proof.
  intros w. unfold decryptEnvironment. destruct (decrypted_view e); repeat split; reflexivity.
Qed.

Lemma beside_encryptEnvironment id e : preserves (beside id) (encryptEnvironment e).
Proof. intros w. rewrite encryptEnvironment_eq. repeat split. reflexivity. Qed.

Lemma unwritten_select {A} (q : list Environment.t -> list Account.t -> A) :
  preserves unwritten (db_select q).
Proof. apply preserves_statement; [apply _| |]; intros w; repeat split. Qed.

Lemma unwritten_report e : preserves unwritten (report e).
Proof. intros w. repeat split. Qed.

Lemma unwritten_hashSecretKey key : preserves unwritten (hashSecretKey key).
Proof.
  intros w. rewrite hashSecretKey_eq. simpl. unfold derived.
  destruct encryption_key; repeat split.
Qed.

Lemma unwritten_decryptEnvironment e : preserves unwritten (decryptEnvironment e).
Proof. intros w. unfold decryptEnvironment. destruct (decrypted_view e); repeat split. Qed.

Lemma unwritten_gets {A} (f : World -> A) : preserves unwritten (gets f).
Proof. intros w. repeat split. Qed.

Lemma unwritten_cache (f : gmap string string -> gmap string string) :
  preserves unwritten (modify (fun w => set_hashLocalCache (f (hashLocalCache w)) w)).
Proof. intros w. repeat split. Qed.

Lemma unhashed_select {A} (q : list Environment.t -> list Account.t -> A) :
  preserves unhashed (db_select q).
Proof. apply preserves_statement; [apply _| |]; intros w; repeat split. Qed.

Lemma unhashed_report e : preserves unhashed (report e).
Proof. intros w. repeat split. Qed.

Lemma unhashed_decryptEnvironment e : preserves unhashed (decryptEnvironment e).
Proof. intros w. unfold decryptEnvironment. destruct (decrypted_view e); repeat split. Qed.

End FramePrimitives.

(** One step of a proof that a method keeps a relation: through the
    sequencing, into the branches, down to the primitives. *)
Ltac preserve_step :=
  first
    [ apply preserves_bind; [apply _| |intros ?]
    | apply preserves_try_catch; [apply _| |intros ?]
    | apply preserves_ret; apply _
    | apply preserves_throw; apply _
    | apply beside_select | apply beside_update | apply beside_draw
    | apply beside_report | apply beside_hashSecretKey | apply beside_hashSecretKey_null
    | apply beside_decryptEnvironment | apply beside_encryptEnvironment
    | apply unwritten_select | apply unwritten_report | apply unwritten_hashSecretKey
    | apply unwritten_decryptEnvironment | apply unwritten_gets | apply unwritten_cache
    | apply unhashed_select | apply unhashed_report | apply unhashed_decryptEnvironment
    | match goal with
      | |- preserves _ (match ?x with _ => _ end) => destruct x
      | |- preserves _ (if ?b then _ else _) => destruct b
      | |- preserves _ (let '(_, _) := ?x in _) => destruct x
      end ].

Ltac preserve := repeat preserve_step.

Section FrameTheorems.
Context {P : Platform}.

Lemma beside_getById id id' : preserves (beside id) (getById id').
Proof. unfold getById. preserve. Qed.

Lemma beside_getRawById id id' : preserves (beside id) (getRawById id').
Proof. unfold getRawById. preserve. Qed.

(** Rotating, reverting or activating a key of one environment leaves the
    rows of all other environments where and as they were, whatever the
    outcome, and never touches the accounts or the hash cache. *)
Theorem rotation_keeps_others (id : Z) (type : string) :
  preserves (beside id) (rotateKey id type) ∧
  preserves (beside id) (revertKey id type) ∧
  preserves (beside id) (activateKey id type).
Proof.
  pose proof (beside_getById id id). pose proof (beside_getRawById id id).
  unfold rotateKey, revertKey, activateKey, rotateSecretKey, rotatePublicKey,
    revertSecretKey, revertPublicKey, activateSecretKey, activatePublicKey.
  split; [|split]; preserve; assumption.
Qed.

End FrameTheorems.

(** ** Reads *)

Section Reads.
Context {P : Platform}.

Lemma unhashed_unwritten {A} (c : M A) : preserves unhashed c -> preserves unwritten c.
Proof. intros H w. apply H. Qed.

Lemma unhashed_byPublicKey key :
  preserves unhashed (getAccountAndEnvironment (ByPublicKey key)).
Proof. unfold getAccountAndEnvironment. preserve. Qed.

Lemma unhashed_byAccountAndName accountId envName :
  preserves unhashed (getAccountAndEnvironment (ByAccountAndName accountId envName)).
Proof. unfold getAccountAndEnvironment. preserve. Qed.

Lemma unwritten_bySecretKey key :
  preserves unwritten (getAccountAndEnvironment (BySecretKey key)).
Proof. unfold getAccountAndEnvironment. preserve. Qed.

Lemma unhashed_resolveFromVariable prefix v :
  preserves unhashed (resolveFromVariable prefix v).
Proof.
  unfold resolveFromVariable. preserve.
Qed.

Lemma preserves_forEnvironmentVariables (R : World -> World -> Prop)
    prefix key vars otherwise :
  (forall v, preserves R (resolveFromVariable prefix v)) ->
  preserves R otherwise ->
  preserves R (forEnvironmentVariables prefix key vars otherwise).
Proof.
  intros Hv Ho. induction vars as [|v vars IH]; [exact Ho|].
  simpl. destruct (bool_decide _); [apply Hv|exact IH].
Qed.

(** No lookup writes: the two resolvers and the reads by id, by uuid and by
    name leave both tables, the log of updates and the random draws as they
    were, whatever they return or throw. Only the resolver by secret key can
    move the hash cache and the derivation counter; all the others leave
    these alone as well. *)
Theorem lookups_write_nothing (key uuid name : string) (id accountId : Z) :
  preserves unwritten (getAccountAndEnvironmentBySecretKey key) ∧
  preserves unhashed (getAccountAndEnvironmentByPublicKey key) ∧
  preserves unhashed (getById id) ∧
  preserves unhashed (getRawById id) ∧
  preserves unhashed (getByEnvironmentName accountId name) ∧
  preserves unhashed (getIdByUuid uuid) ∧
  preserves unhashed (getEnvironmentName id) ∧
  preserves unhashed (getEnvironmentsByAccountId accountId) ∧
  preserves unhashed (getAccountIdFromEnvironment id) ∧
  preserves unhashed (getAccountFromEnvironment id) ∧
  preserves unhashed (getEnvironmentIdForAccountAssumingProd accountId) ∧
  preserves unhashed (getSlackNotificationsEnabled id).
Proof.
  repeat apply conj.
  - unfold getAccountAndEnvironmentBySecretKey. destruct (negb isCloud).
    + apply preserves_forEnvironmentVariables; [|apply unwritten_bySecretKey].
      intros v. apply unhashed_unwritten, unhashed_resolveFromVariable.
    + apply unwritten_bySecretKey.
  - unfold getAccountAndEnvironmentByPublicKey. destruct (negb isCloud).
    + apply preserves_forEnvironmentVariables; [|apply unhashed_byPublicKey].
      apply unhashed_resolveFromVariable.
    + apply unhashed_byPublicKey.
  - unfold getById. preserve.
  - unfold getRawById. preserve.
  - unfold getByEnvironmentName. preserve.
  - unfold getIdByUuid. preserve.
  - unfold getEnvironmentName. preserve.
  - unfold getEnvironmentsByAccountId. preserve.
  - unfold getAccountIdFromEnvironment. preserve.
  - unfold getAccountFromEnvironment. preserve.
  - unfold getEnvironmentIdForAccountAssumingProd. preserve.
  - unfold getSlackNotificationsEnabled. preserve.
Qed.

End Reads.

(** ** Rotation: outage, repetition *)

Section RotationEdges.
Context {P : Platform} {D : Schema}.

(** While the database cannot be reached no rotation operation changes a
    row. Those that begin with [getById] or [getRawById] report the failure
    and answer as for an unknown environment ([null] or [false]);
    [rotatePublicKey] and [createEnvironment], which send their statement
    unguarded, throw. *)
Theorem rotation_during_outage (w : World) (id : Z) (name : string) :
  db_up w = false ->
  let absorbed := set_reported (StoreUnavailable :: reported w) (counted w) in
  rotateKey id "secret" w = (Ok None, absorbed) ∧
  revertKey id "secret" w = (Ok None, absorbed) ∧
  revertKey id "public" w = (Ok None, absorbed) ∧
  activateKey id "secret" w = (Ok false, absorbed) ∧
  activateKey id "public" w = (Ok false, absorbed) ∧
  (rotateKey id "public" w).1 = Throw StoreUnavailable ∧
  environments (rotateKey id "public" w).2 = environments w ∧
  createEnvironment id name w = (Throw StoreUnavailable, counted w).
Proof.
  intros Hdown absorbed. subst absorbed.
  rewrite rotateKey_secret, rotateKey_public, revertKey_secret, revertKey_public,
    activateKey_secret.
  change (activateKey id "public") with (activatePublicKey id).
  unfold rotateSecretKey, revertSecretKey, revertPublicKey, activateSecretKey,
    activatePublicKey, rotatePublicKey, createEnvironment, db_insert, bind.
  rewrite getById_eq, getRawById_eq, Hdown.
  unfold draw, db_update, db_statement. simpl. rewrite Hdown.
  repeat split.
Qed.

Lemma update_twice id c envs :
  (forall e, Environment.id e = id -> Environment.id (assign c e) = id) ->
  (forall e, assign c (assign c e) = assign c e) ->
  update_where_id id c (update_where_id id c envs) = update_where_id id c envs.
Proof.
  intros Hid Hidem. unfold update_where_id.
  rewrite <- list_fmap_compose. apply list_fmap_ext. intros _ e _. simpl.
  destruct (decide (Environment.id e = id)) as [He|He].
  - rewrite decide_True by auto. apply Hidem.
  - by rewrite decide_False.
Qed.

Lemma revertSecretKey_run id w :
  revertSecretKey id w =
    if db_up w then
      match row_of id w with
      | None => (Ok None, counted w)
      | Some row =>
          match decrypted_view row with
          | Some d =>
              (Ok (Environment.secret_key d),
               set_writes (writes w ++ [(id, ClearPendingSecret)])
                 (set_environments
                    (update_where_id id ClearPendingSecret (environments w))
                    (counted (counted w))))
          | None => (Ok None, set_reported (DecryptionFailure :: reported w) (counted w))
          end
      end
    else (Ok None, set_reported (StoreUnavailable :: reported w) (counted w)).
Proof.
  unfold revertSecretKey, bind. rewrite getById_eq.
  destruct (db_up w) eqn:Hup; [|reflexivity].
  destruct (row_of id w) as [row|]; [|reflexivity].
  destruct (decrypted_view row); [|reflexivity].
  by rewrite db_update_up.
Qed.

Lemma revertPublicKey_run id w :
  revertPublicKey id w =
    if db_up w then
      match row_of id w with
      | None => (Ok None, counted w)
      | Some row =>
          match decrypted_view row with
          | Some d =>
              (Ok (Environment.public_key d),
               set_writes (writes w ++ [(id, PendingPublicKey None)])
                 (set_environments
                    (update_where_id id (PendingPublicKey None) (environments w))
                    (counted (counted w))))
          | None => (Ok None, set_reported (DecryptionFailure :: reported w) (counted w))
          end
      end
    else (Ok None, set_reported (StoreUnavailable :: reported w) (counted w)).
Proof.
  unfold revertPublicKey, bind. rewrite getById_eq.
  destruct (db_up w) eqn:Hup; [|reflexivity].
  destruct (row_of id w) as [row|]; [|reflexivity].
  destruct (decrypted_view row); [|reflexivity].
  by rewrite db_update_up.
Qed.

(** Reverting is idempotent: a second [revertKey] returns what the first
    returned and leaves the table as the first left it, for either type and
    whether the first found the environment or not. *)
Theorem revert_twice (w : World) (id : Z) (type : string) :
  (revertKey id type (revertKey id type w).2).1 = (revertKey id type w).1 ∧
  environments (revertKey id type (revertKey id type w).2).2
    = environments (revertKey id type w).2.
Proof.
  unfold revertKey. repeat case_bool_decide; [| |done].
  - rewrite (revertSecretKey_run id w).
    destruct (db_up w) eqn:Hup;
      [|by rewrite revertSecretKey_run; simpl; rewrite Hup].
    destruct (row_of id w) as [row|] eqn:Hrow;
      [|by rewrite revertSecretKey_run; simpl; rewrite Hup;
           change (row_of id (counted w)) with (row_of id w); rewrite Hrow].
    destruct (decrypted_view row) as [d|] eqn:Hd.
    2: { rewrite revertSecretKey_run; simpl; rewrite Hup.
         change (row_of id _) with (row_of id w). by rewrite Hrow, Hd. }
    destruct (cleared_view row d Hd) as (v & Hv & Hsk & _).
    rewrite revertSecretKey_run. simpl. rewrite Hup.
    unfold row_of in *. simpl.
    rewrite row_of_update by (intros e He; exact He). rewrite Hrow.
    change (assign ClearPendingSecret <$> Some row)
      with (Some (assign ClearPendingSecret row)).
    cbv beta iota. rewrite Hv. simpl.
    split; [by rewrite Hsk|]. by apply update_twice.
  - rewrite (revertPublicKey_run id w).
    destruct (db_up w) eqn:Hup;
      [|by rewrite revertPublicKey_run; simpl; rewrite Hup].
    destruct (row_of id w) as [row|] eqn:Hrow;
      [|by rewrite revertPublicKey_run; simpl; rewrite Hup;
           change (row_of id (counted w)) with (row_of id w); rewrite Hrow].
    destruct (decrypted_view row) as [d|] eqn:Hd.
    2: { rewrite revertPublicKey_run; simpl; rewrite Hup.
         change (row_of id _) with (row_of id w). by rewrite Hrow, Hd. }
    assert (Hv : decrypted_view (assign (PendingPublicKey None) row)
                 = Some (Environment.set_pending_public_key None d)).
    { revert Hd. unfold decrypted_view. simpl.
      destruct (decrypt_field _ _ _); [|done].
      destruct (decrypt_field _ _ _); [|done].
      by intros [= <-]. }
    rewrite revertPublicKey_run. simpl. rewrite Hup.
    unfold row_of in *. simpl.
    rewrite row_of_update by (intros e He; exact He). rewrite Hrow.
    change (assign (PendingPublicKey None) <$> Some row)
      with (Some (assign (PendingPublicKey None) row)).
    cbv beta iota. rewrite Hv. simpl.
    split; [done|]. by apply update_twice.
Qed.

End RotationEdges.

(** ** What a resolution returns *)

Section Soundness.
Context {P : Platform}.

Lemma byPublicKey_eq key w :
  getAccountAndEnvironment (ByPublicKey key) w =
    if db_up w then
      match head (filter (fun r => Environment.public_key r.2 = Some key)
                         (joined (environments w) (accounts w))) with
      | None => (Ok None, counted w)
      | Some (a, row) =>
          match decrypted_view row with
          | Some d => (Ok (Some (a, d)), counted w)
          | None => (Throw DecryptionFailure, counted w)
          end
      end
    else (Throw StoreUnavailable, counted w).
Proof.
  unfold getAccountAndEnvironment, bind.
  destruct (db_up w) eqn:Hup.
  - rewrite db_select_up by done.
    destruct (head _) as [[a row]|]; [|reflexivity].
    unfold decryptEnvironment, ret. destruct (decrypted_view row); reflexivity.
  - rewrite db_select_down by done. reflexivity.
Qed.

Lemma byPublicKey_route key :
  getAccountAndEnvironmentByPublicKey key =
    if isCloud then getAccountAndEnvironment (ByPublicKey key)
    else match matching_variable "NANGO_PUBLIC_KEY_" key with
         | Some v => resolveFromVariable "NANGO_PUBLIC_KEY_" v
         | None => getAccountAndEnvironment (ByPublicKey key)
         end.
Proof.
  unfold getAccountAndEnvironmentByPublicKey, matching_variable.
  destruct isCloud; [reflexivity|]. simpl. apply forEnvironmentVariables_eq.
Qed.

(** What the override returns is a stored row with the name the variable
    stands for, joined with its account. *)
Lemma resolveFromVariable_sound prefix v w a d w' :
  resolveFromVariable prefix v w = (Ok (Some (a, d)), w') ->
  exists row,
    row ∈ environments w ∧ decrypted_view row = Some d ∧
    a ∈ accounts w ∧ Account.id a = Environment.account_id row ∧
    Environment.name row = envName_of prefix v.
Proof.
  rewrite resolveFromVariable_eq.
  destruct (db_up w) eqn:Hup; [|discriminate].
  destruct (head (filter _ (environments w))) as [e0|]; [|discriminate].
  rewrite byAccountAndName_eq. simpl. rewrite Hup.
  destruct (head _) as [[a' row]|] eqn:Hj; [|discriminate].
  destruct (decrypted_view row) as [d'|] eqn:Hd; [|discriminate].
  intros [= -> -> _].
  apply joined_match in Hj as (Hin & [_ Hname] & Ha & Hid). simpl in Hname.
  by exists row.
Qed.

(** Whatever pair the resolver by secret key returns is a stored row,
    decrypted, together with the account that owns it. Unless a variable of
    the self-hosted mode answered for the key (then the row is the one the
    variable names), the row is one whose stored hash is the hash that was
    looked up: the hash of the presented key, when the cache holds only
    hashes of its keys. *)
Theorem resolved_by_secret_is_stored
    (w w' : World) (key : string) (a : Account.t) (d : Environment.t) :
  getAccountAndEnvironmentBySecretKey key w = (Ok (Some (a, d)), w') ->
  exists row,
    row ∈ environments w ∧ decrypted_view row = Some d ∧
    a ∈ accounts w ∧ Account.id a = Environment.account_id row ∧
    (¬ overridden "NANGO_SECRET_KEY_" key -> cache_sound w ->
     Environment.secret_key_hashed row = Some (digest key)) ∧
    (forall v, isCloud = false -> matching_variable "NANGO_SECRET_KEY_" key = Some v ->
     Environment.name row = envName_of "NANGO_SECRET_KEY_" v).
Proof.
  assert (Hpath :
    getAccountAndEnvironment (BySecretKey key) w = (Ok (Some (a, d)), w') ->
    exists row,
      row ∈ environments w ∧ decrypted_view row = Some d ∧
      a ∈ accounts w ∧ Account.id a = Environment.account_id row ∧
      (cache_sound w -> Environment.secret_key_hashed row = Some (digest key))).
  { rewrite bySecretKey_eq.
    destruct (db_up w); [|discriminate].
    destruct (head _) as [[a' row]|] eqn:Hj; [|discriminate].
    destruct (decrypted_view row) as [d'|] eqn:Hd; [|discriminate].
    intros [= -> -> _].
    apply joined_match in Hj as (Hin & Hh & Ha & Hid). simpl in Hh.
    exists row. split_and!; try done.
    intros Hs. by rewrite (looked_up_hash w key Hs) in Hh. }
  rewrite bySecretKey_route. unfold overridden.
  destruct isCloud eqn:Hcloud.
  - intros (row & ? & ? & ? & ? & Hh)%Hpath. exists row. split_and!; try done.
    all: try (intros _; exact Hh).
  - destruct (matching_variable "NANGO_SECRET_KEY_" key) as [v|] eqn:Hv.
    + intros (row & ? & ? & ? & ? & Hname)%resolveFromVariable_sound.
      exists row. split_and!; try done.
      all: try (intros Hno; destruct Hno; split; [done|by eexists]).
      all: try (by intros v' _ [= <-]).
    + intros (row & ? & ? & ? & ? & Hh)%Hpath. exists row. split_and!; try done.
      all: try (intros _; exact Hh).
Qed.

(** The same for the resolver by public key: the pair is a stored row with
    its account, and unless a variable answered, the row stores the
    presented key as its public key. *)
Theorem resolved_by_public_is_stored
    (w w' : World) (key : string) (a : Account.t) (d : Environment.t) :
  getAccountAndEnvironmentByPublicKey key w = (Ok (Some (a, d)), w') ->
  exists row,
    row ∈ environments w ∧ decrypted_view row = Some d ∧
    a ∈ accounts w ∧ Account.id a = Environment.account_id row ∧
    (¬ overridden "NANGO_PUBLIC_KEY_" key ->
     Environment.public_key row = Some key ∧ Environment.public_key d = Some key) ∧
    (forall v, isCloud = false -> matching_variable "NANGO_PUBLIC_KEY_" key = Some v ->
     Environment.name row = envName_of "NANGO_PUBLIC_KEY_" v).
Proof.
  assert (Hpath :
    getAccountAndEnvironment (ByPublicKey key) w = (Ok (Some (a, d)), w') ->
    exists row,
      row ∈ environments w ∧ decrypted_view row = Some d ∧
      a ∈ accounts w ∧ Account.id a = Environment.account_id row ∧
      Environment.public_key row = Some key ∧ Environment.public_key d = Some key).
  { rewrite byPublicKey_eq.
    destruct (db_up w); [|discriminate].
    destruct (head _) as [[a' row]|] eqn:Hj; [|discriminate].
    destruct (decrypted_view row) as [d'|] eqn:Hd; [|discriminate].
    intros [= -> -> _].
    apply joined_match in Hj as (Hin & Hh & Ha & Hid). simpl in Hh.
    exists row. split_and!; try done.
    apply decrypted_view_frame in Hd as (_ & _ & _ & _ & -> & _). exact Hh. }
  rewrite byPublicKey_route. unfold overridden.
  destruct isCloud eqn:Hcloud.
  - intros (row & ? & ? & ? & ? & Hh)%Hpath. exists row. split_and!; try done.
    all: try (intros _; apply Hh).
  - destruct (matching_variable "NANGO_PUBLIC_KEY_" key) as [v|] eqn:Hv.
    + intros (row & ? & ? & ? & ? & Hname)%resolveFromVariable_sound.
      exists row. split_and!; try done.
      all: try (intros Hno; destruct Hno; split; [done|by eexists]).
      all: try (by intros v' _ [= <-]).
    + intros (row & ? & ? & ? & ? & Hh)%Hpath. exists row. split_and!; try done.
      all: try (intros _; apply Hh).
Qed.

End Soundness.

(** ** Rotation and the resolvers *)

Section RotationAndResolution.
Context {P : Platform}.

Lemma not_overridden_secret key :
  ¬ overridden "NANGO_SECRET_KEY_" key ->
  getAccountAndEnvironmentBySecretKey key = getAccountAndEnvironment (BySecretKey key).
Proof.
  intros Hno. rewrite bySecretKey_route. unfold overridden in Hno.
  destruct isCloud; [done|].
  destruct (matching_variable "NANGO_SECRET_KEY_" key); [|done].
  destruct Hno. split; [done|by eexists].
Qed.

Lemma not_overridden_public key :
  ¬ overridden "NANGO_PUBLIC_KEY_" key ->
  getAccountAndEnvironmentByPublicKey key = getAccountAndEnvironment (ByPublicKey key).
Proof.
  intros Hno. rewrite byPublicKey_route. unfold overridden in Hno.
  destruct isCloud; [done|].
  destruct (matching_variable "NANGO_PUBLIC_KEY_" key); [|done].
  destruct Hno. split; [done|by eexists].
Qed.

Lemma row_of_id id w row : row_of id w = Some row -> Environment.id row = id.
Proof.
  unfold row_of. intros H%head_Some_elem_of.
  by apply list_elem_of_filter in H as [? _].
Qed.

Lemma row_of_elem id w row : row_of id w = Some row -> row ∈ environments w.
Proof.
  unfold row_of. intros H%head_Some_elem_of.
  by apply list_elem_of_filter in H as [_ ?].
Qed.

Lemma elem_of_update id c envs e' :
  e' ∈ update_where_id id c envs ->
  (exists e, e ∈ envs ∧ Environment.id e = id ∧ e' = assign c e)
  ∨ (e' ∈ envs ∧ Environment.id e' ≠ id).
Proof.
  unfold update_where_id. intros (e & -> & Hin)%list_elem_of_fmap.
  destruct (decide (Environment.id e = id)); [left; by exists e|by right].
Qed.

Lemma update_elem_of id c envs e :
  e ∈ envs -> Environment.id e = id -> assign c e ∈ update_where_id id c envs.
Proof.
  intros Hin Hid. unfold update_where_id. apply list_elem_of_fmap.
  exists e. by rewrite decide_True.
Qed.

(** A second rotation replaces the pending secret instead of adding to it:
    after two [rotateKey id "secret"] the one pending slot holds the second
    value, and the active secret and its stored hash are still those from
    before the first. *)
Theorem rotate_twice (w : World) (id : Z) (row d : Environment.t) :
  cipher_roundtrip ->
  db_up w = true -> row_of id w = Some row -> decrypted_view row = Some d ->
  exists p1 p2 w1 w2 row2 v2,
    rotateKey id "secret" w = (Ok (Some p1), w1) ∧
    rotateKey id "secret" w1 = (Ok (Some p2), w2) ∧
    row_of id w2 = Some row2 ∧
    decrypted_view row2 = Some v2 ∧
    Environment.pending_secret_key v2 = Some p2 ∧
    Environment.secret_key v2 = Environment.secret_key d ∧
    Environment.secret_key_hashed row2 = Environment.secret_key_hashed row.
Proof.
  intros Hrt Hup Hrow Hd. rewrite rotateKey_secret.
  pose proof (row_of_id _ _ _ Hrow) as Hrowid.
  pose proof (decrypted_view_frame _ _ Hd) as (Hid & _ & _ & Hhash & _).
  destruct (rotateSecretKey_eq w id row d Hup Hrow Hd)
    as (w1 & Hrun1 & Hup1 & Henvs1 & _).
  set (p1 := uuid_v4 (entropy w)) in *.
  set (enc1 := sealed (S (entropy w)) (Environment.set_pending_secret_key (Some p1) d)) in *.
  destruct (sealed_view (S (entropy w)) (Environment.set_pending_secret_key (Some p1) d) Hrt)
    as (v1 & Hv1 & Hsk1 & _).
  pose proof (sealed_frame (S (entropy w)) (Environment.set_pending_secret_key (Some p1) d))
    as (Hid1 & _ & _ & Hhash1 & _).
  fold enc1 in Hv1, Hid1, Hhash1. simpl in Hsk1, Hid1, Hhash1.
  assert (Henc1id : Environment.id enc1 = id) by congruence.
  assert (Hrow1 : row_of id w1 = Some enc1).
  { unfold row_of. rewrite Henvs1. apply row_of_replace; [done|].
    unfold row_of in Hrow. by rewrite Hrow. }
  pose proof (decrypted_view_frame _ _ Hv1) as (Hidv1 & _ & _ & Hhashv1 & _).
  destruct (rotateSecretKey_eq w1 id enc1 v1 Hup1 Hrow1 Hv1)
    as (w2 & Hrun2 & _ & Henvs2 & _).
  set (p2 := uuid_v4 (entropy w1)) in *.
  set (enc2 := sealed (S (entropy w1)) (Environment.set_pending_secret_key (Some p2) v1)) in *.
  destruct (sealed_view (S (entropy w1)) (Environment.set_pending_secret_key (Some p2) v1) Hrt)
    as (v2 & Hv2 & Hsk2 & Hp2).
  pose proof (sealed_frame (S (entropy w1)) (Environment.set_pending_secret_key (Some p2) v1))
    as (Hid2 & _ & _ & Hhash2 & _).
  fold enc2 in Hv2, Hid2, Hhash2. simpl in Hsk2, Hp2, Hid2, Hhash2.
  exists p1, p2, w1, w2, enc2, v2.
  split; [exact Hrun1|]. split; [exact Hrun2|].
  split.
  { unfold row_of. rewrite Henvs2. apply row_of_replace; [congruence|].
    unfold row_of in Hrow1. by rewrite Hrow1. }
  split; [exact Hv2|]. split; [exact Hp2|]. split; congruence.
Qed.

(** Rotation causes no downtime and grants nothing early: after
    [rotateKey id "secret"] the active secret still resolves to the
    environment, now shown with the pending value, while the pending value
    itself does not resolve, as long as no row stores its hash. *)
Theorem rotate_keeps_authenticating
    (w : World) (id : Z) (row d : Environment.t) (old : string) (a0 : Account.t) :
  let new := uuid_v4 (entropy w) in
  cipher_roundtrip ->
  cache_sound w ->
  db_up w = true ->
  row_of id w = Some row ->
  decrypted_view row = Some d ->
  Environment.secret_key d = Some old ->
  Environment.secret_key_hashed row = Some (digest old) ->
  head (filter (fun a => Account.id a = Environment.account_id row) (accounts w)) = Some a0 ->
  ¬ overridden "NANGO_SECRET_KEY_" old ->
  ¬ overridden "NANGO_SECRET_KEY_" new ->
  (forall e, e ∈ environments w -> Environment.id e ≠ id ->
     Environment.secret_key_hashed e ≠ Some (digest old)) ->
  (forall e, e ∈ environments w ->
     Environment.secret_key_hashed e ≠ Some (digest new)) ->
  exists w1 w2 w3 v1,
    rotateKey id "secret" w = (Ok (Some new), w1) ∧
    getAccountAndEnvironmentBySecretKey old w1 = (Ok (Some (a0, v1)), w2) ∧
    Environment.id v1 = id ∧
    Environment.secret_key v1 = Some old ∧
    Environment.pending_secret_key v1 = Some new ∧
    getAccountAndEnvironmentBySecretKey new w1 = (Ok None, w3).
Proof.
  intros new Hrt Hsound Hup Hrow Hd Hold Hhash Hacct Hnoold Hnonew Hothers Hnew.
  pose proof (row_of_id _ _ _ Hrow) as Hrowid.
  pose proof (decrypted_view_frame _ _ Hd) as (Hid & Hacc & _ & Hdhash & _).
  rewrite rotateKey_secret.
  destruct (rotateSecretKey_eq w id row d Hup Hrow Hd)
    as (w1 & Hrun1 & Hup1 & Henvs1 & Haccts1 & Hcache1 & _).
  fold new in Hrun1, Henvs1.
  set (enc := sealed (S (entropy w)) (Environment.set_pending_secret_key (Some new) d)) in *.
  destruct (sealed_view (S (entropy w)) (Environment.set_pending_secret_key (Some new) d) Hrt)
    as (v1 & Hv1 & Hsk1 & Hp1).
  pose proof (sealed_frame (S (entropy w)) (Environment.set_pending_secret_key (Some new) d))
    as (Hid1 & Hacc1 & _ & Hhash1 & _).
  fold enc in Hv1, Hid1, Hacc1, Hhash1. simpl in Hsk1, Hp1, Hid1, Hacc1, Hhash1.
  assert (Hsome : is_Some (head (where_id id (environments w)))).
  { unfold row_of in Hrow. by rewrite Hrow. }
  assert (Hsound1 : cache_sound w1).
  { unfold cache_sound. rewrite Hcache1. exact Hsound. }
  assert (Hench : Environment.secret_key_hashed enc = Some (digest old)) by congruence.
  eexists w1, _, _, v1.
  split; [exact Hrun1|]. split; [|split; [|split; [|split]]].
  - rewrite (not_overridden_secret old Hnoold), bySecretKey_eq,
      (looked_up_hash w1 old Hsound1), Hup1.
    rewrite (joined_unique _ _ _ a0 enc).
    + rewrite Hv1. reflexivity.
    + intros a a' e He. exact He.
    + intros a e He Hh. simpl in Hh. rewrite Henvs1 in He.
      apply elem_of_replace in He as [->|[He Hne]]; [done|].
      by destruct (Hothers e He Hne).
    + rewrite Henvs1. by apply replace_elem_of.
    + exact Hench.
    + rewrite Haccts1. replace (Environment.account_id enc)
        with (Environment.account_id row) by congruence. exact Hacct.
  - apply decrypted_view_frame in Hv1 as (-> & _). congruence.
  - congruence.
  - exact Hp1.
  - rewrite (not_overridden_secret new Hnonew), bySecretKey_eq,
      (looked_up_hash w1 new Hsound1), Hup1.
    rewrite joined_miss; [reflexivity|].
    intros a e He Hh. simpl in Hh. rewrite Henvs1 in He.
    apply elem_of_replace in He as [->|[He Hne]].
    + rewrite Hench in Hh. apply (Hnew row (row_of_elem _ _ _ Hrow)). congruence.
    + by apply (Hnew e He).
Qed.

End RotationAndResolution.

(** ** The public key through a rotation *)

Section PublicRotation.
Context {P : Platform}.

Lemma activatePublicKey_eq w id row d :
  db_up w = true -> row_of id w = Some row -> decrypted_view row = Some d ->
  exists w',
    activatePublicKey id w = (Ok true, w') ∧
    db_up w' = true ∧
    environments w'
      = update_where_id id (PromotePublic (Environment.pending_public_key row))
          (environments w) ∧
    accounts w' = accounts w ∧
    hashLocalCache w' = hashLocalCache w ∧
    writes w' = writes w ++ [(id, PromotePublic (Environment.pending_public_key row))].
Proof.
  intros Hup Hrow Hd. unfold activatePublicKey, bind.
  rewrite getById_eq, Hup, Hrow, Hd.
  rewrite db_update_up by done. simpl.
  apply decrypted_view_frame in Hd as (_ & _ & _ & _ & _ & ->).
  eexists; split; [reflexivity|]. repeat split; done.
Qed.

Lemma view_with_pending_public row d v :
  decrypted_view row = Some d ->
  decrypted_view (assign (PendingPublicKey v) row)
    = Some (Environment.set_pending_public_key v d).
Proof.
  unfold decrypted_view. simpl.
  destruct (decrypt_field _ _ _); [|done].
  destruct (decrypt_field _ _ _); [|done].
  by intros [= <-].
Qed.

Lemma view_promoted_public row d :
  decrypted_view row = Some d ->
  decrypted_view (assign (PromotePublic (Environment.pending_public_key row)) row)
    = Some (assign (PromotePublic (Environment.pending_public_key row)) d).
Proof.
  unfold decrypted_view. simpl.
  destruct (decrypt_field _ _ _); [|done].
  destruct (decrypt_field _ _ _); [|done].
  by intros [= <-].
Qed.

(** The public key through a rotation, for an environment that is the only
    row with its id: after [rotateKey id "public"] the pending value does
    not resolve yet and the active one still does; after [activateKey] the
    new value resolves to the environment and the old one to nothing, the
    pending slot is empty, and the secret key and its hash were never
    touched. *)
Theorem public_key_rotation
    (w : World) (id : Z) (row d : Environment.t) (old : string) (a0 : Account.t) :
  let new := uuid_v4 (entropy w) in
  db_up w = true ->
  row_of id w = Some row ->
  (forall e, e ∈ environments w -> Environment.id e = id -> e = row) ->
  decrypted_view row = Some d ->
  Environment.public_key row = Some old ->
  old ≠ new ->
  head (filter (fun a => Account.id a = Environment.account_id row) (accounts w)) = Some a0 ->
  ¬ overridden "NANGO_PUBLIC_KEY_" new ->
  ¬ overridden "NANGO_PUBLIC_KEY_" old ->
  (forall e, e ∈ environments w -> Environment.id e ≠ id ->
     Environment.public_key e ≠ Some new ∧ Environment.public_key e ≠ Some old) ->
  exists w1 w2 v1 v2 row2,
    rotateKey id "public" w = (Ok (Some new), w1) ∧
    (getAccountAndEnvironmentByPublicKey new w1).1 = Ok None ∧
    (getAccountAndEnvironmentByPublicKey old w1).1 = Ok (Some (a0, v1)) ∧
    Environment.pending_public_key v1 = Some new ∧
    activateKey id "public" w1 = (Ok true, w2) ∧
    row_of id w2 = Some row2 ∧
    Environment.public_key row2 = Some new ∧
    Environment.pending_public_key row2 = None ∧
    Environment.secret_key row2 = Environment.secret_key row ∧
    Environment.secret_key_hashed row2 = Environment.secret_key_hashed row ∧
    (getAccountAndEnvironmentByPublicKey new w2).1 = Ok (Some (a0, v2)) ∧
    Environment.id v2 = id ∧
    (getAccountAndEnvironmentByPublicKey old w2).1 = Ok None.
Proof.
  intros new Hup Hrow Honly Hd Hpk Hne Hacct Hnonew Hnoold Hothers.
  pose proof (row_of_id _ _ _ Hrow) as Hrowid.
  pose proof (row_of_elem _ _ _ Hrow) as Hrowin.
  rewrite rotateKey_public.
  destruct (rotatePublicKey_eq w id Hup)
    as (w1 & Hrun1 & Hup1 & Henvs1 & Haccts1 & _).
  fold new in Hrun1, Henvs1.
  set (c1 := PendingPublicKey (Some new)) in *.
  set (row1 := assign c1 row).
  assert (Hrow1 : row_of id w1 = Some row1).
  { unfold row_of. rewrite Henvs1, row_of_update by (intros e He; exact He).
    unfold row_of in Hrow. by rewrite Hrow. }
  pose proof (view_with_pending_public row d (Some new) Hd) as Hv1. fold c1 row1 in Hv1.
  assert (Hin1 : forall e, e ∈ environments w1 ->
            e = row1 ∨ (e ∈ environments w ∧ Environment.id e ≠ id)).
  { intros e He. rewrite Henvs1 in He.
    apply elem_of_update in He as [(e0 & He0 & Hid0 & ->)|?]; [left|by right].
    by rewrite (Honly e0 He0 Hid0). }
  change (activateKey id "public") with (activatePublicKey id).
  destruct (activatePublicKey_eq w1 id row1 _ Hup1 Hrow1 Hv1)
    as (w2 & Hrun2 & Hup2 & Henvs2 & Haccts2 & _).
  change (Environment.pending_public_key row1) with (Some new) in Henvs2.
  set (c2 := PromotePublic (Some new)) in *.
  set (row2 := assign c2 row1).
  assert (Hrow2 : row_of id w2 = Some row2).
  { unfold row_of. rewrite Henvs2, row_of_update by (intros e He; exact He).
    unfold row_of in Hrow1. by rewrite Hrow1. }
  pose proof (view_promoted_public row1 _ Hv1) as Hv2.
  change (Environment.pending_public_key row1) with (Some new) in Hv2.
  fold c2 row2 in Hv2.
  assert (Hin2 : forall e, e ∈ environments w2 ->
            e = row2 ∨ (e ∈ environments w ∧ Environment.id e ≠ id)).
  { intros e He. rewrite Henvs2 in He.
    apply elem_of_update in He as [(e1 & He1 & Hid1 & ->)|[He Hid]].
    - left. destruct (Hin1 e1 He1) as [->|[_ ?]]; done.
    - destruct (Hin1 e He) as [->|?]; [by destruct Hid|by right]. }
  eexists w1, w2, _, _, row2.
  split; [exact Hrun1|]. split; [|split; [|split]].
  - rewrite (not_overridden_public new Hnonew), byPublicKey_eq, Hup1.
    rewrite joined_miss; [reflexivity|].
    intros a e He Hk. simpl in Hk.
    destruct (Hin1 e He) as [->|[He0 Hid0]].
    + simpl in Hk. congruence.
    + by destruct (Hothers e He0 Hid0).
  - rewrite (not_overridden_public old Hnoold), byPublicKey_eq, Hup1.
    rewrite (joined_unique _ _ _ a0 row1).
    + rewrite Hv1. reflexivity.
    + intros a a' e He. exact He.
    + intros a e He Hk. simpl in Hk.
      destruct (Hin1 e He) as [->|[He0 Hid0]]; [done|].
      by destruct (Hothers e He0 Hid0).
    + rewrite Henvs1. by apply update_elem_of.
    + exact Hpk.
    + rewrite Haccts1. exact Hacct.
  - reflexivity.
  - split; [exact Hrun2|]. split; [exact Hrow2|].
    do 4 (split; [reflexivity|]).
    split; [|split].
    + rewrite (not_overridden_public new Hnonew), byPublicKey_eq, Hup2.
      rewrite (joined_unique _ _ _ a0 row2).
      * rewrite Hv2. reflexivity.
      * intros a a' e He. exact He.
      * intros a e He Hk. simpl in Hk.
        destruct (Hin2 e He) as [->|[He0 Hid0]]; [done|].
        by destruct (Hothers e He0 Hid0).
      * rewrite Henvs2. apply update_elem_of; [|exact Hrowid].
        rewrite Henvs1. by apply update_elem_of.
      * reflexivity.
      * rewrite Haccts2, Haccts1. exact Hacct.
    + apply decrypted_view_frame in Hd as (Hid & _). simpl. congruence.
    + rewrite (not_overridden_public old Hnoold), byPublicKey_eq, Hup2.
      rewrite joined_miss; [reflexivity|].
      intros a e He Hk. simpl in Hk.
      destruct (Hin2 e He) as [->|[He0 Hid0]].
      * simpl in Hk. congruence.
      * by destruct (Hothers e He0 Hid0).
Qed.

End PublicRotation.

(** ** From the name of a variable to the name of an environment *)

Section Names.
Context {P : Platform}.

Lemma append_cons c p s : String c p +:+ s = String c (p +:+ s).
Proof. reflexivity. Qed.

Lemma append_nil s : EmptyString +:+ s = s.
Proof. reflexivity. Qed.

Lemma prefix_append p s : Stdlib.Strings.String.prefix p (p +:+ s) = true.
Proof.
  induction p as [|c p IH]; [by destruct s|].
  rewrite append_cons. cbn. destruct (ascii_dec c c); [exact IH|done].
Qed.

Lemma index_append p s : Stdlib.Strings.String.index 0 p (p +:+ s) = Some 0%nat.
Proof.
  destruct (p +:+ s) as [|c r] eqn:Heq.
  - destruct p; [done|discriminate Heq].
  - cbn [Stdlib.Strings.String.index]. rewrite <- Heq. by rewrite prefix_append.
Qed.

Lemma substring_all s :
  Stdlib.Strings.String.substring 0 (Stdlib.Strings.String.length s) s = s.
Proof. induction s as [|c s IH]; [done|]. cbn. by rewrite IH. Qed.

Lemma drop_append p s : JsString.drop (Stdlib.Strings.String.length p) (p +:+ s) = s.
Proof.
  unfold JsString.drop. induction p as [|c p IH].
  - rewrite append_nil. cbn. rewrite Nat.sub_0_r. apply substring_all.
  - rewrite append_cons. cbn. exact IH.
Qed.

Lemma replace_prefix p s : JsString.replace (p +:+ s) p EmptyString = s.
Proof.
  unfold JsString.replace. rewrite index_append.
  assert (Htake : JsString.take 0 (p +:+ s) = EmptyString)
    by (unfold JsString.take; destruct (p +:+ s); reflexivity).
  rewrite Htake, !append_nil. apply drop_append.
Qed.

Lemma lower_ascii_idem c : JsString.lower_ascii (JsString.lower_ascii c) = JsString.lower_ascii c.
Proof. destruct c as [[] [] [] [] [] [] [] []]; reflexivity. Qed.

Lemma toLowerCase_idem s :
  JsString.toLowerCase (JsString.toLowerCase s) = JsString.toLowerCase s.
Proof.
  induction s as [|c s IH]; [done|]. cbn. by rewrite lower_ascii_idem, IH.
Qed.

(** The environment a variable stands for is named by what follows the
    prefix, in lower case: the case of the suffix does not matter, and
    the derived name is itself in lower case whatever the variable. *)
Theorem variable_names_environment (prefix suffix v : string) :
  envName_of prefix (prefix +:+ suffix) = JsString.toLowerCase suffix ∧
  JsString.toLowerCase (envName_of prefix v) = envName_of prefix v.
Proof.
  unfold envName_of. split; [by rewrite replace_prefix|apply toLowerCase_idem].
Qed.

(** An environment can be reached through a variable of the self-hosted
    mode only if its name is in lower case: whatever pair the resolver
    returns when a variable holds the presented key, the name of its
    environment is unchanged by [toLowerCase]. *)
Theorem override_reaches_lowercase_names
    (w w' : World) (key v : string) (a : Account.t) (d : Environment.t) :
  isCloud = false ->
  matching_variable "NANGO_SECRET_KEY_" key = Some v ->
  getAccountAndEnvironmentBySecretKey key w = (Ok (Some (a, d)), w') ->
  JsString.toLowerCase (Environment.name d) = Environment.name d ∧
  Environment.name d = envName_of "NANGO_SECRET_KEY_" v.
Proof.
  intros Hcloud Hv. rewrite bySecretKey_route, Hcloud, Hv.
  intros (row & _ & Hd & _ & _ & Hname)%resolveFromVariable_sound.
  apply decrypted_view_frame in Hd as (_ & _ & -> & _). rewrite Hname.
  split; [apply toLowerCase_idem|done].
Qed.

End Names.

(** ** Creating environments *)

Section Creation.
Context {P : Platform} {D : Schema}.

Lemma where_id_app id l1 l2 : where_id id (l1 ++ l2) = where_id id l1 ++ where_id id l2.
Proof. unfold where_id. apply filter_app. Qed.

Lemma update_app id c l1 l2 :
  update_where_id id c (l1 ++ l2) = update_where_id id c l1 ++ update_where_id id c l2.
Proof. unfold update_where_id. apply fmap_app. Qed.

Lemma db_insert_up accountId name w :
  db_up w = true ->
  db_insert accountId name w =
    (Ok [Environment.id (inserted accountId name (entropy w) (environments w))],
     set_entropy (S (entropy w))
       (set_environments
          (environments w ++ [inserted accountId name (entropy w) (environments w)])
          (counted w))).
Proof. intros Hup. unfold db_insert, db_statement. by rewrite Hup. Qed.

Lemma createEnvironment_eq w accountId name d key :
  let new := inserted accountId name (entropy w) (environments w) in
  cipher_roundtrip ->
  db_up w = true ->
  where_id (Environment.id new) (environments w) = [] ->
  decrypted_view new = Some d ->
  Environment.secret_key d = Some key ->
  exists w' row env,
    createEnvironment accountId name w = (Ok (Some env), w') ∧
    db_up w' = true ∧
    environments w' = environments w ++ [row] ∧
    accounts w' = accounts w ∧
    hashLocalCache w' = hashLocalCache w ∧
    writes w' = writes w ++ [(Environment.id new, WholeRow row)] ∧
    decrypted_view row = Some env ∧
    Environment.id row = Environment.id new ∧
    Environment.account_id row = accountId ∧
    Environment.name row = name ∧
    Environment.public_key row = Environment.public_key new ∧
    Environment.secret_key env = Some key ∧
    Environment.secret_key_hashed row = Some (digest key).
Proof.
  intros new Hrt Hup Hfresh Hd Hkey.
  pose proof (decrypted_view_frame _ _ Hd) as (Hid & Hacc & Hname & _ & Hpk & _).
  unfold createEnvironment, bind. rewrite db_insert_up by exact Hup. fold new.
  set (w1 := set_entropy _ _).
  assert (Hup1 : db_up w1 = true) by exact Hup.
  assert (Hrow1 : row_of (Environment.id new) w1 = Some new).
  { unfold row_of. change (environments w1) with (environments w ++ [new]).
    rewrite where_id_app, Hfresh. unfold where_id.
    by rewrite filter_cons, decide_True. }
  rewrite getById_eq, Hup1, Hrow1, Hd, Hkey, hashSecretKey_eq. unfold ret at 1.
  rewrite encryptEnvironment_eq.
  destruct (derived_frame (counted w1)) as (Hup' & Henvs' & Haccts' & Hcache' & Hwrites').
  set (hashedEnvironment := Environment.set_secret_key_hashed (Some (digest key)) d).
  set (enc := sealed (entropy (derived (counted w1))) hashedEnvironment).
  destruct (sealed_view (entropy (derived (counted w1))) hashedEnvironment Hrt)
    as (v & Hv & Hsk & _).
  destruct (sealed_frame (entropy (derived (counted w1))) hashedEnvironment)
    as (Hencid & Hencacc & Hencname & Henchash & Hencpk & _).
  fold enc in Hv, Hencid, Hencacc, Hencname, Henchash, Hencpk.
  rewrite db_update_up
    by (change (db_up (derived (counted w1)) = true); rewrite Hup'; exact Hup1).
  unfold decryptEnvironment. rewrite Hv. unfold ret.
  exists (set_writes
            (writes (set_entropy (entropy (derived (counted w1)) + draws hashedEnvironment)
                       (derived (counted w1))) ++ [(Environment.id new, WholeRow enc)])
            (set_environments
               (update_where_id (Environment.id new) (WholeRow enc)
                  (environments
                     (set_entropy (entropy (derived (counted w1)) + draws hashedEnvironment)
                        (derived (counted w1)))))
               (counted
                  (set_entropy (entropy (derived (counted w1)) + draws hashedEnvironment)
                     (derived (counted w1)))))), enc, v.
  split; [reflexivity|].
  change (db_up (derived (counted w1)) = true
          ∧ update_where_id (Environment.id new) (WholeRow enc)
              (environments (derived (counted w1))) = environments w ++ [enc]
          ∧ accounts (derived (counted w1)) = accounts w
          ∧ hashLocalCache (derived (counted w1)) = hashLocalCache w
          ∧ writes (derived (counted w1)) ++ [(Environment.id new, WholeRow enc)]
            = writes w ++ [(Environment.id new, WholeRow enc)]
          ∧ decrypted_view enc = Some v
          ∧ Environment.id enc = Environment.id new
          ∧ Environment.account_id enc = accountId
          ∧ Environment.name enc = name
          ∧ Environment.public_key enc = Environment.public_key new
          ∧ Environment.secret_key v = Some key
          ∧ Environment.secret_key_hashed enc = Some (digest key)).
  rewrite Hup', Henvs', Haccts', Hcache', Hwrites'.
  split; [exact Hup1|]. split.
  { change (environments (counted w1)) with (environments w ++ [new]).
    rewrite update_app, update_unknown_id by exact Hfresh.
    unfold update_where_id. rewrite fmap_cons, decide_True by done. done. }
  split; [done|]. split; [done|]. split; [done|]. split; [exact Hv|].
  subst hashedEnvironment. simpl in Hsk, Hencid, Hencacc, Hencname, Henchash, Hencpk.
  change (Environment.account_id new) with accountId in Hacc.
  change (Environment.name new) with name in Hname.
  split_and!; congruence.
Qed.

(** [createEnvironment] on a reachable database, with schema defaults that
    give the row an unused id and a secret key that reads back: one row is
    appended for the given account and name, with a single [update] after
    the [insert]; its stored hash is the hash of its secret key, and the
    environment returned is that row decrypted. *)
Theorem created_environment
    (w : World) (accountId : Z) (name key : string) (d : Environment.t) :
  let new := inserted accountId name (entropy w) (environments w) in
  cipher_roundtrip ->
  db_up w = true ->
  where_id (Environment.id new) (environments w) = [] ->
  decrypted_view new = Some d ->
  Environment.secret_key d = Some key ->
  exists w' row env,
    createEnvironment accountId name w = (Ok (Some env), w') ∧
    environments w' = environments w ++ [row] ∧
    writes w' = writes w ++ [(Environment.id new, WholeRow row)] ∧
    decrypted_view row = Some env ∧
    Environment.account_id row = accountId ∧
    Environment.name row = name ∧
    Environment.secret_key env = Some key ∧
    Environment.secret_key_hashed row = Some (digest key).
Proof.
  intros new Hrt Hup Hfresh Hd Hkey.
  destruct (createEnvironment_eq w accountId name d key Hrt Hup Hfresh Hd Hkey)
    as (w' & row & env & Hrun & _ & Henvs & _ & _ & Hw & Hv & _ & Hacc & Hname & _
        & Hsk & Hh).
  exists w', row, env. split_and!; done.
Qed.

End Creation.

Section CreationAndLookup.
Context {P : Platform} {D : Schema}.

(** A created environment can be used at once: looked up by the id it was
    given, [getById] returns it, and its secret key resolves to it with the
    account it was created for, provided no older row stores the same hash. *)
Theorem created_environment_authenticates
    (w : World) (accountId : Z) (name key : string) (d : Environment.t) (a0 : Account.t) :
  let new := inserted accountId name (entropy w) (environments w) in
  cipher_roundtrip ->
  cache_sound w ->
  db_up w = true ->
  where_id (Environment.id new) (environments w) = [] ->
  decrypted_view new = Some d ->
  Environment.secret_key d = Some key ->
  head (filter (fun a => Account.id a = accountId) (accounts w)) = Some a0 ->
  ¬ overridden "NANGO_SECRET_KEY_" key ->
  (forall e, e ∈ environments w -> Environment.secret_key_hashed e ≠ Some (digest key)) ->
  exists w' w'' env,
    createEnvironment accountId name w = (Ok (Some env), w') ∧
    (getById (Environment.id new) w').1 = Ok (Some env) ∧
    getAccountAndEnvironmentBySecretKey key w' = (Ok (Some (a0, env)), w'').
Proof.
  intros new Hrt Hsound Hup Hfresh Hd Hkey Hacct Hno Hothers.
  destruct (createEnvironment_eq w accountId name d key Hrt Hup Hfresh Hd Hkey)
    as (w' & row & env & Hrun & Hup' & Henvs & Haccts & Hcache & _ & Hv & Hid & Hacc & _
        & _ & _ & Hh).
  assert (Hsound' : cache_sound w').
  { unfold cache_sound. rewrite Hcache. exact Hsound. }
  eexists w', _, env. split; [exact Hrun|]. split.
  - rewrite getById_eq, Hup'. unfold row_of.
    rewrite Henvs, where_id_app, Hfresh. unfold where_id.
    rewrite filter_cons, decide_True by done. simpl. by rewrite Hv.
  - rewrite (not_overridden_secret key Hno), bySecretKey_eq,
      (looked_up_hash w' key Hsound'), Hup'.
    rewrite (joined_unique _ _ _ a0 row).
    + rewrite Hv. reflexivity.
    + intros a a' e He. exact He.
    + intros a e He Hk. simpl in Hk. rewrite Henvs in He.
      apply elem_of_app in He as [He|He%list_elem_of_singleton]; [|done].
      by destruct (Hothers e He).
    + rewrite Henvs. apply elem_of_app. right. by apply list_elem_of_singleton.
    + exact Hh.
    + rewrite Haccts, Hacc. exact Hacct.
Qed.

(** [createDefaultEnvironments] on a reachable database, with a schema whose
    defaults always give an unused id and a readable secret key: two rows
    are appended for the account, named prod and dev in this order, each
    storing the hash of its own secret key; the names listed for the account
    afterwards are the former ones followed by these two. *)
Theorem default_environments (w : World) (accountId : Z) :
  cipher_roundtrip -> schema_fresh -> schema_readable ->
  db_up w = true ->
  exists w' prod dev kp kd vp vd names,
    createDefaultEnvironments accountId w = (Ok tt, w') ∧
    environments w' = environments w ++ [prod; dev] ∧
    Environment.name prod = "prod" ∧ Environment.name dev = "dev" ∧
    Environment.account_id prod = accountId ∧ Environment.account_id dev = accountId ∧
    decrypted_view prod = Some vp ∧ Environment.secret_key vp = Some kp ∧
    Environment.secret_key_hashed prod = Some (digest kp) ∧
    decrypted_view dev = Some vd ∧ Environment.secret_key vd = Some kd ∧
    Environment.secret_key_hashed dev = Some (digest kd) ∧
    (getEnvironmentsByAccountId accountId w).1 = Ok names ∧
    (getEnvironmentsByAccountId accountId w').1 = Ok (names ++ ["prod"; "dev"]).
Proof.
  intros Hrt Hfresh Hread Hup.
  unfold createDefaultEnvironments, defaultEnvironments, createEach, bind.
  destruct (Hread accountId "prod" (entropy w) (environments w)) as (d1 & k1 & Hd1 & Hk1).
  destruct (createEnvironment_eq w accountId "prod" d1 k1 Hrt Hup
              (Hfresh _ _) Hd1 Hk1)
    as (w1 & prod & vp & Hrun1 & Hup1 & Henvs1 & _ & _ & _ & Hvp & _ & Hacc1 & Hname1 & _
        & Hskp & Hhp).
  rewrite Hrun1.
  destruct (Hread accountId "dev" (entropy w1) (environments w1)) as (d2 & k2 & Hd2 & Hk2).
  destruct (createEnvironment_eq w1 accountId "dev" d2 k2 Hrt Hup1
              (Hfresh _ _) Hd2 Hk2)
    as (w2 & dev & vd & Hrun2 & Hup2 & Henvs2 & _ & _ & _ & Hvd & _ & Hacc2 & Hname2 & _
        & Hskd & Hhd).
  rewrite Hrun2.
  exists w2, prod, dev, k1, k2, vp, vd,
    (Environment.name <$>
       filter (fun e => Environment.account_id e = accountId) (environments w)).
  split; [reflexivity|].
  split; [by rewrite Henvs2, Henvs1, <- app_assoc|].
  do 10 (split; [done|]).
  unfold getEnvironmentsByAccountId, try_catch, bind.
  rewrite !db_select_up by done. simpl. split; [reflexivity|].
  rewrite Henvs2, Henvs1, <- app_assoc, filter_app, fmap_app.
  f_equal. f_equal. change ([prod] ++ [dev]) with [prod; dev].
  rewrite filter_cons, decide_True by done.
  rewrite filter_cons, decide_True by done.
  simpl. by rewrite Hname1, Hname2.
Qed.

End CreationAndLookup.

(** ** Reads that must agree *)

Section Agreement.
Context {P : Platform}.

Lemma head_fmap' {A B} (f : A -> B) (l : list A) : head (f <$> l) = f <$> head l.
Proof. by destruct l. Qed.

(** The first account that a matched row is joined with. *)
Lemma joined_head_account (R : Account.t * Environment.t -> Prop)
    `{!forall r, Decision (R r)} envs accts a row :
  (forall b b' e, R (b, e) -> R (b', e)) ->
  head (filter R (joined envs accts)) = Some (a, row) ->
  head (filter (fun b => Account.id b = Environment.account_id row) accts) = Some a.
Proof.
  intros Hirr. induction envs as [|e envs IH]; [done|].
  rewrite joined_cons, filter_app.
  destruct (filter (fun b => Account.id b = Environment.account_id e) accts)
    as [|b l] eqn:Hb.
  - simpl. exact IH.
  - destruct (decide (R (b, e))) as [Hyes|Hno].
    + rewrite fmap_cons, filter_cons, decide_True by done. simpl.
      intros [= -> ->]. by rewrite Hb.
    + assert (Hnil : filter R ((fun a => (a, e)) <$> (b :: l)) = []).
      { clear Hb. generalize (b :: l). intros l0.
        induction l0 as [|b' l' IHl]; [reflexivity|].
        rewrite fmap_cons, filter_cons, decide_False; [exact IHl|].
        intros Hr. apply Hno. by apply (Hirr b'). }
      rewrite Hnil. simpl. exact IH.
Qed.

(** The reads by id answer from one and the same row, the first one with
    the id: the name, the account id and the Slack flag are those of the row
    [getRawById] returns, and [getById] returns that row decrypted, or
    nothing when it does not decrypt. *)
Theorem reads_by_id_agree (w : World) (id : Z) :
  db_up w = true ->
  exists r,
    (getRawById id w).1 = Ok r ∧
    (getById id w).1 = Ok (r ≫= decrypted_view) ∧
    (getEnvironmentName id w).1 = Ok (Environment.name <$> r) ∧
    (getAccountIdFromEnvironment id w).1 = Ok (Environment.account_id <$> r) ∧
    (getSlackNotificationsEnabled id w).1 = Ok (Environment.slack_notifications <$> r) ∧
    (r = None <-> forall e, e ∈ environments w -> Environment.id e ≠ id).
Proof.
  intros Hup. exists (row_of id w).
  rewrite getRawById_eq, getById_eq, Hup.
  unfold getEnvironmentName, getAccountIdFromEnvironment, getSlackNotificationsEnabled, bind.
  rewrite !db_select_up by done. simpl. rewrite !head_fmap'. fold (row_of id w).
  split; [done|]. split.
  { destruct (row_of id w) as [row|]; [|done]. simpl. by destruct (decrypted_view row). }
  do 3 (split; [done|]).
  unfold row_of, where_id. split.
  - intros Hnone e He Hid.
    assert (Hin : e ∈ filter (fun e => Environment.id e = id) (environments w))
      by (by apply list_elem_of_filter).
    destruct (filter _ (environments w)); [by apply elem_of_nil in Hin|done].
  - intros Hno. destruct (filter _ (environments w)) as [|e l] eqn:Hf; [done|].
    assert (Hin : e ∈ filter (fun e => Environment.id e = id) (environments w))
      by (rewrite Hf; left).
    apply list_elem_of_filter in Hin as [Hid Hin]. by destruct (Hno e Hin).
Qed.

(** The account the resolver pairs with an environment is the account that
    [getAccountFromEnvironment] reports for the id of that environment, and
    [getAccountIdFromEnvironment] reports its id, when no other row carries
    that id. *)
Theorem resolved_account_agrees
    (w w' : World) (key : string) (a : Account.t) (d : Environment.t) :
  getAccountAndEnvironmentBySecretKey key w = (Ok (Some (a, d)), w') ->
  (forall e e', e ∈ environments w -> e' ∈ environments w ->
     Environment.id e = Environment.id e' -> e = e') ->
  (getAccountFromEnvironment (Environment.id d) w).1 = Ok (Some a) ∧
  (getAccountIdFromEnvironment (Environment.id d) w).1 = Ok (Some (Account.id a)).
Proof.
  intros Hrun Huniq.
  assert (Hfound : exists row,
            row ∈ environments w ∧ decrypted_view row = Some d ∧
            head (filter (fun b => Account.id b = Environment.account_id row) (accounts w))
              = Some a ∧ db_up w = true).
  { revert Hrun. rewrite bySecretKey_route.
    assert (Hhash : getAccountAndEnvironment (BySecretKey key) w = (Ok (Some (a, d)), w') ->
              exists row,
                row ∈ environments w ∧ decrypted_view row = Some d ∧
                head (filter (fun b => Account.id b = Environment.account_id row)
                        (accounts w)) = Some a ∧ db_up w = true).
    { rewrite bySecretKey_eq.
      destruct (db_up w); [|discriminate].
      destruct (head _) as [[a' row]|] eqn:Hj; [|discriminate].
      destruct (decrypted_view row) as [d'|] eqn:Hd; [|discriminate].
      intros [= -> -> _]. exists row.
      pose proof (joined_match _ _ _ _ _ Hj) as (Hin & _).
      split; [done|]. split; [done|]. split; [|done].
      apply (fun H => joined_head_account _ _ _ _ _ H Hj). by intros b b' e He. }
    destruct isCloud; [exact Hhash|].
    destruct (matching_variable "NANGO_SECRET_KEY_" key) as [v|]; [|exact Hhash].
    rewrite resolveFromVariable_eq.
    destruct (db_up w) eqn:Hup; [|discriminate].
    destruct (head (filter _ (environments w))) as [e0|]; [|discriminate].
    rewrite byAccountAndName_eq. simpl. rewrite Hup.
    destruct (head _) as [[a' row]|] eqn:Hj; [|discriminate].
    destruct (decrypted_view row) as [d'|] eqn:Hd; [|discriminate].
    intros [= -> -> _]. exists row.
    pose proof (joined_match _ _ _ _ _ Hj) as (Hin & _).
    split; [done|]. split; [done|]. split; [|done].
    apply (fun H => joined_head_account _ _ _ _ _ H Hj). by intros b b' e He. }
  destruct Hfound as (row & Hin & Hd & Hacct & Hup).
  apply decrypted_view_frame in Hd as (Hid & _). rewrite Hid.
  pose proof (head_Some_elem_of _ _ Hacct) as Ha.
  apply list_elem_of_filter in Ha as [Haid Ha].
  unfold getAccountFromEnvironment, getAccountIdFromEnvironment, bind.
  rewrite !db_select_up by done. simpl. split.
  - rewrite (joined_unique _ _ _ a row);
      [done | by intros b b' e He
      | intros b e He Hide; simpl in Hide; by apply Huniq | done | done | done].
  - rewrite head_fmap'.
    assert (Hrow : head (where_id (Environment.id row) (environments w)) = Some row).
    { destruct (head (where_id (Environment.id row) (environments w))) as [r|] eqn:Hr.
      - pose proof (head_Some_elem_of _ _ Hr) as Hr'.
        apply list_elem_of_filter in Hr' as [Hrid Hrin].
        f_equal. by apply Huniq.
      - assert (Hin' : row ∈ where_id (Environment.id row) (environments w))
          by (by apply list_elem_of_filter).
        destruct (where_id _ _); [by apply elem_of_nil in Hin'|done]. }
    rewrite Hrow. simpl. by rewrite Haid.
Qed.

(** The lookup that assumes prod agrees with the lookup by name: whenever
    [getByEnvironmentName accountId "prod"] finds an environment,
    [getEnvironmentIdForAccountAssumingProd] returns its id, and when the
    account has no row named prod both return nothing. *)
Theorem assuming_prod_agrees (w : World) (accountId : Z) :
  db_up w = true ->
  (forall d w', getByEnvironmentName accountId "prod" w = (Ok (Some d), w') ->
     (getEnvironmentIdForAccountAssumingProd accountId w).1 = Ok (Some (Environment.id d))) ∧
  ((forall e, e ∈ environments w ->
      ¬ (Environment.account_id e = accountId ∧ Environment.name e = "prod")) ->
   (getByEnvironmentName accountId "prod" w).1 = Ok None ∧
   (getEnvironmentIdForAccountAssumingProd accountId w).1 = Ok None).
Proof.
  intros Hup.
  unfold getByEnvironmentName, getEnvironmentIdForAccountAssumingProd, bind.
  rewrite !db_select_up by done. simpl. rewrite head_fmap'.
  destruct (filter _ (environments w)) as [|row l] eqn:Hf; simpl.
  - split; [by intros d w' [=]|done].
  - split.
    + unfold decryptEnvironment. destruct (decrypted_view row) as [d|] eqn:Hd; [|by intros].
      intros d' w'. unfold ret. intros [= <- _].
      by apply decrypted_view_frame in Hd as (-> & _).
    + intros Hno.
      assert (Hin : row ∈ filter (fun e => Environment.account_id e = accountId
                                          ∧ Environment.name e = "prod") (environments w))
        by (rewrite Hf; left).
      apply list_elem_of_filter in Hin as [Hq Hin]. by destruct (Hno row Hin).
Qed.

(** A row whose ciphertext does not verify exists for [getRawById] but not
    for [getById], which reports the failure and answers [null]; so
    rotating or reverting its keys, or activating its public key, answers as
    for an unknown environment, and [activateSecretKey], which decrypts
    outside any handler, throws. None of them changes a row. *)
Theorem undecryptable_row (w : World) (id : Z) (row : Environment.t) :
  db_up w = true -> row_of id w = Some row -> decrypted_view row = None ->
  let reported := set_reported (DecryptionFailure :: reported w) (counted w) in
  getRawById id w = (Ok (Some row), counted w) ∧
  getById id w = (Ok None, reported) ∧
  rotateKey id "secret" w = (Ok None, reported) ∧
  revertKey id "secret" w = (Ok None, reported) ∧
  revertKey id "public" w = (Ok None, reported) ∧
  activateKey id "public" w = (Ok false, reported) ∧
  activateKey id "secret" w = (Throw DecryptionFailure, counted w).
Proof.
  intros Hup Hrow Hd reported'. subst reported'.
  rewrite rotateKey_secret, revertKey_secret, revertKey_public, activateKey_secret.
  change (activateKey id "public") with (activatePublicKey id).
  unfold rotateSecretKey, revertSecretKey, revertPublicKey, activateSecretKey,
    activatePublicKey, bind.
  rewrite getById_eq, getRawById_eq, Hup, Hrow, Hd.
  unfold decryptEnvironment. rewrite Hd. repeat split.
Qed.

End Agreement.

(** ** Environment variables *)

Section VariableFacts.
Context {P : Platform} {Dr : Driver}.

Lemma encryptEnvironmentVariables_eq vars w :
  exists enc,
    encryptEnvironmentVariables vars w
      = (Ok enc, set_entropy (entropy w + length vars) w) ∧
    Forall2 sealed_from vars enc.
Proof.
  revert w. induction vars as [|var vars IH]; intros w.
  - exists []. split; [|constructor]. simpl. unfold ret.
    destruct w; unfold set_entropy; simpl. do 2 f_equal. lia.
  - simpl. unfold bind at 1. unfold draw.
    destruct (encrypt (entropy w) (EnvironmentVariable.value var)) as [[c iv] tag] eqn:Henc.
    unfold bind.
    destruct (IH (set_entropy (S (entropy w)) w)) as (enc & Hrun & Hall).
    rewrite Hrun. eexists. split.
    + unfold ret. f_equal. destruct w; unfold set_entropy; simpl. f_equal. lia.
    + constructor; [|exact Hall]. split; [done|]. split; [done|].
      exists (entropy w). rewrite Henc. done.
Qed.

Lemma decryptEnvironmentVariables_sealed vars enc w :
  cipher_roundtrip ->
  Forall2 sealed_from vars enc ->
  exists rows,
    decryptEnvironmentVariables enc w = (Ok rows, w) ∧
    Forall2 (fun plain row =>
               EnvironmentVariable.environment_id row
                 = EnvironmentVariable.environment_id plain ∧
               EnvironmentVariable.name row = EnvironmentVariable.name plain ∧
               EnvironmentVariable.value row = EnvironmentVariable.value plain)
            vars rows.
Proof.
  intros Hrt Hall. induction Hall as [|var e vars enc (Hid & Hname & n & Hv & Hiv & Htag) _ IH].
  - exists []. split; [done|constructor].
  - destruct IH as (rows & Hrun & Hrows).
    simpl. rewrite Hiv, Htag, Hv, Hrt. unfold bind, ret. rewrite Hrun.
    eexists. split; [reflexivity|]. constructor; [|exact Hrows]. done.
Qed.

Lemma rows_of_values env values rows :
  Forall2 (fun plain row =>
             EnvironmentVariable.environment_id row
               = EnvironmentVariable.environment_id plain ∧
             EnvironmentVariable.name row = EnvironmentVariable.name plain ∧
             EnvironmentVariable.value row = EnvironmentVariable.value plain)
          ((fun value => EnvironmentVariable.mk env value.1 value.2 None None) <$> values)
          rows ->
  (fun x => (EnvironmentVariable.name x, EnvironmentVariable.value x)) <$> rows = values ∧
  Forall (fun x => EnvironmentVariable.environment_id x = env) rows.
Proof.
  revert rows. induction values as [|[n x] values IH]; intros rows Hall.
  - inversion Hall. split; [done|constructor].
  - rewrite fmap_cons in Hall.
    inversion Hall as [|? row ? rows' (Hid & Hname & Hval) Hall']; subst.
    destruct (IH rows' Hall') as (H1 & H2). simpl in Hid, Hname, Hval.
    split; [|by constructor].
    rewrite fmap_cons, H1, Hname, Hval. done.
Qed.

Lemma filter_sealed env values enc :
  Forall2 sealed_from
    ((fun value => EnvironmentVariable.mk env value.1 value.2 None None) <$> values) enc ->
  filter (fun var => EnvironmentVariable.environment_id var = env) enc = enc ∧
  filter (fun var => EnvironmentVariable.environment_id var ≠ env) enc = [] ∧
  EnvironmentVariable.name <$> enc = fst <$> values.
Proof.
  revert enc. induction values as [|value values IH]; intros enc Hall.
  - inversion Hall. done.
  - rewrite fmap_cons in Hall.
    inversion Hall as [|? e ? enc' (Hid & Hname & _) Hall']; subst.
    destruct (IH enc' Hall') as (H1 & H2 & H3). simpl in Hid, Hname.
    rewrite !filter_cons, decide_True, decide_False by auto.
    rewrite H1, H2, !fmap_cons, H3, Hname. done.
Qed.

Lemma filter_filter_out {A} (Q : A -> Prop) `{!forall x, Decision (Q x)} (l : list A) :
  filter Q (filter (fun x => ¬ Q x) l) = [] ∧
  filter (fun x => ¬ Q x) (filter (fun x => ¬ Q x) l) = filter (fun x => ¬ Q x) l.
Proof.
  induction l as [|x l [IH1 IH2]]; [done|].
  rewrite (filter_cons (fun x => ¬ Q x)).
  destruct (decide (¬ Q x)) as [Hx|Hx]; [|done].
  rewrite !filter_cons, decide_False, decide_True by done. by rewrite IH1, IH2.
Qed.

Lemma var_statement_up {A}
    (run : list EnvironmentVariable.t -> A * list EnvironmentVariable.t) v :
  db_up (world v) = true ->
  var_statement run v
    = (Ok (run (variables v)).1, mkVault (counted (world v)) (run (variables v)).2).
Proof.
  intros Hup. unfold var_statement. rewrite Hup. by destruct (run (variables v)).
Qed.

(** [editEnvironmentVariable] on a reachable database. *)
Lemma editEnvironmentVariable_run env values v :
  db_up (world v) = true ->
  exists enc w',
    editEnvironmentVariable env values v
      = (match values with
         | [] => Ok None
         | _ => match insert_results enc with
                | [] => Ok None
                | results => Ok (Some results)
                end
         end,
         mkVault w'
           (filter (fun var => EnvironmentVariable.environment_id var ≠ env) (variables v)
            ++ enc)) ∧
    db_up w' = true ∧
    environments w' = environments (world v) ∧
    Forall2 sealed_from
      ((fun value => EnvironmentVariable.mk env value.1 value.2 None None) <$> values) enc.
Proof.
  intros Hup. unfold editEnvironmentVariable, bindV.
  rewrite var_statement_up by done. cbn [fst snd].
  remember ((fun value => EnvironmentVariable.mk env value.1 value.2 None None) <$> values)
    as mapped eqn:Hmapped.
  destruct values as [|value values].
  - exists [], (counted (world v)). subst mapped. unfold retV. rewrite app_nil_r.
    split; [done|]. split; [done|]. split; [done|constructor].
  - unfold liftV. cbn [world variables].
    destruct (encryptEnvironmentVariables_eq mapped (counted (world v)))
      as (enc & Hrun & Hall).
    rewrite Hrun. rewrite var_statement_up by done. cbn [fst snd world variables].
    exists enc, (counted (set_entropy (entropy (counted (world v)) + length mapped)
                            (counted (world v)))).
    split; [by destruct (insert_results enc)|]. done.
Qed.

Lemma editEnvironmentVariable_table env values v :
  db_up (world v) = true ->
  exists enc,
    variables (editEnvironmentVariable env values v).2
      = filter (fun var => EnvironmentVariable.environment_id var ≠ env) (variables v) ++ enc ∧
    db_up (world (editEnvironmentVariable env values v).2) = true ∧
    Forall2 sealed_from
      ((fun value => EnvironmentVariable.mk env value.1 value.2 None None) <$> values) enc.
Proof.
  intros Hup.
  destruct (editEnvironmentVariable_run env values v Hup) as (enc & w' & -> & ? & ? & ?).
  by exists enc.
Qed.

(** [editEnvironmentVariable] replaces: on a reachable database the
    variables of the other environments stay as they are, in place and
    order, and the environment is left with exactly one variable per given
    value, under the given names and in the given order, whatever it had
    before; with no values it is left with none and the answer is [null]. *)
Theorem edit_replaces_variables (v : Vault) (env : Z) (values : list (string * string)) :
  db_up (world v) = true ->
  let v' := (editEnvironmentVariable env values v).2 in
  filter (fun var => EnvironmentVariable.environment_id var ≠ env) (variables v')
    = filter (fun var => EnvironmentVariable.environment_id var ≠ env) (variables v) ∧
  EnvironmentVariable.name <$>
    filter (fun var => EnvironmentVariable.environment_id var = env) (variables v')
    = fst <$> values ∧
  environments (world v') = environments (world v) ∧
  (values = [] -> (editEnvironmentVariable env values v).1 = Ok None).
Proof.
  intros Hup v'. subst v'.
  destruct (editEnvironmentVariable_table env values v Hup) as (enc & Hvars & _ & Hall).
  destruct (filter_sealed env values enc Hall) as (Hin & Hout & Hnames).
  destruct (filter_filter_out
              (fun var => EnvironmentVariable.environment_id var = env) (variables v))
    as (Hnone & Hsame).
  rewrite Hvars, !filter_app, Hin, Hout, Hnone, Hsame, app_nil_r. simpl.
  split; [done|]. split; [done|].
  destruct (editEnvironmentVariable_run env values v Hup) as (enc' & w' & -> & _ & Henvs & _).
  split; [exact Henvs|]. by intros ->.
Qed.

(** What was set is what is read: after [editEnvironmentVariable env values]
    on a reachable database, [getEnvironmentVariables env] returns the given
    names and values, decrypted, in the given order, each for [env]. *)
Theorem variables_round_trip (v : Vault) (env : Z) (values : list (string * string)) :
  cipher_roundtrip ->
  db_up (world v) = true ->
  exists rows,
    (getEnvironmentVariables env (editEnvironmentVariable env values v).2).1 = Ok rows ∧
    (fun x => (EnvironmentVariable.name x, EnvironmentVariable.value x)) <$> rows = values ∧
    Forall (fun x => EnvironmentVariable.environment_id x = env) rows.
Proof.
  intros Hrt Hup.
  destruct (editEnvironmentVariable_table env values v Hup) as (enc & Hvars & Hup' & Hall).
  destruct (filter_sealed env values enc Hall) as (Hin & _ & _).
  destruct (filter_filter_out
              (fun var => EnvironmentVariable.environment_id var = env) (variables v))
    as (Hnone & _).
  unfold getEnvironmentVariables, bindV, var_statement. rewrite Hup'.
  cbv beta iota zeta. rewrite Hvars, filter_app, Hnone, Hin. simpl.
  destruct enc as [|e enc].
  - exists []. inversion Hall as [Hnil|]. destruct values; [done|discriminate].
  - unfold liftV. simpl world.
    destruct (decryptEnvironmentVariables_sealed _ (e :: enc)
                (counted (world (editEnvironmentVariable env values v).2)) Hrt Hall)
      as (rows & Hrun & Hrows).
    rewrite Hrun. exists rows. split; [done|].
    by apply rows_of_values.
Qed.

End VariableFacts.

(** ** The further facts on the sample deployment *)

Lemma where_id_none i envs :
  (forall e, e ∈ envs -> Environment.id e ≠ i) -> where_id i envs = [].
Proof.
  unfold where_id. induction envs as [|e0 envs IH]; intros Hne; [done|].
  rewrite filter_cons, decide_False by (apply Hne; left).
  apply IH. intros e He. apply Hne. by right.
Qed.

Lemma next_id_above envs e :
  e ∈ envs -> Environment.id e < SampleSchema.next_id envs.
Proof.
  unfold SampleSchema.next_id.
  induction envs as [|e0 envs IH]; intros He; [by apply elem_of_nil in He|].
  rewrite fmap_cons. simpl. apply elem_of_cons in He as [->|He]; [lia|].
  specialize (IH He). lia.
Qed.

Lemma sample_schema_fresh : @schema_fresh SampleSchema.schema.
Proof.
  intros n envs. apply where_id_none. intros e He.
  pose proof (next_id_above envs e He). simpl. lia.
Qed.

Lemma sample_schema_readable : @schema_readable Sample.cloud SampleSchema.schema.
Proof. intros accountId name n envs. eexists _, _. split; reflexivity. Qed.

Lemma rotation_during_outage_witness :
  @rotateKey Sample.cloud 1 "secret" (Sample.world false [Sample.dev])
    = (Ok None, set_reported [StoreUnavailable] (counted (Sample.world false [Sample.dev]))) ∧
  (@rotateKey Sample.cloud 1 "public" (Sample.world false [Sample.dev])).1
    = Throw StoreUnavailable.
Proof.
  destruct (@rotation_during_outage Sample.cloud SampleSchema.schema
              (Sample.world false [Sample.dev]) 1 "dev" eq_refl)
    as (H1 & _ & _ & _ & _ & H6 & _).
  split; [exact H1|exact H6].
Defined.

Lemma resolved_by_secret_is_stored_witness :
  exists row,
    row ∈ [Sample.dev; Sample.prod] ∧
    Environment.secret_key_hashed row = Some (@digest Sample.cloud "sk-prod") ∧
    Account.id Sample.globex = Environment.account_id row.
Proof.
  assert (Hrun :
    @getAccountAndEnvironmentBySecretKey Sample.cloud "sk-prod"
      (Sample.world true [Sample.dev; Sample.prod])
    = (Ok (Some (Sample.globex,
                 Environment.set_secret (Some "sk-prod") (Some "iv") (Some "tag")
                   Sample.prod)),
       (@getAccountAndEnvironmentBySecretKey Sample.cloud "sk-prod"
          (Sample.world true [Sample.dev; Sample.prod])).2))
    by (vm_compute; reflexivity).
  destruct (@resolved_by_secret_is_stored Sample.cloud _ _ _ _ _ Hrun)
    as (row & Hin & _ & _ & Hid & Hh & _).
  exists row. split; [exact Hin|]. split; [|exact Hid].
  apply Hh; [intros [H _]; discriminate H|apply sample_cache_sound].
Defined.

Lemma resolved_by_public_is_stored_witness :
  exists row,
    row ∈ [Sample.dev; Sample.prod] ∧
    Environment.public_key row = Some "pk-dev" ∧
    Account.id Sample.acme = Environment.account_id row.
Proof.
  assert (Hrun :
    @getAccountAndEnvironmentByPublicKey Sample.cloud "pk-dev"
      (Sample.world true [Sample.dev; Sample.prod])
    = (Ok (Some (Sample.acme,
                 Environment.set_secret (Some "sk-dev") (Some "iv") (Some "tag")
                   Sample.dev)),
       (@getAccountAndEnvironmentByPublicKey Sample.cloud "pk-dev"
          (Sample.world true [Sample.dev; Sample.prod])).2))
    by (vm_compute; reflexivity).
  destruct (@resolved_by_public_is_stored Sample.cloud _ _ _ _ _ Hrun)
    as (row & Hin & _ & _ & Hid & Hk & _).
  exists row. split; [exact Hin|]. split; [|exact Hid].
  apply Hk. intros [H _]. discriminate H.
Defined.

Lemma rotate_twice_witness :
  exists p1 p2 w1 w2 row2 v2,
    @rotateKey Sample.cloud 1 "secret" (Sample.world true [Sample.dev; Sample.prod])
      = (Ok (Some p1), w1) ∧
    @rotateKey Sample.cloud 1 "secret" w1 = (Ok (Some p2), w2) ∧
    @row_of 1 w2 = Some row2 ∧
    @decrypted_view Sample.cloud row2 = Some v2 ∧
    Environment.pending_secret_key v2 = Some p2 ∧
    Environment.secret_key v2 = Some "sk-dev" ∧
    Environment.secret_key_hashed row2 = Some "H(sk-dev,master)".
Proof.
  exact (@rotate_twice Sample.cloud (Sample.world true [Sample.dev; Sample.prod]) 1
           Sample.dev _ sample_roundtrip_cloud eq_refl eq_refl eq_refl).
Defined.

Lemma rotate_keeps_authenticating_witness :
  exists w1 w2 w3 v1,
    @rotateKey Sample.cloud 1 "secret" (Sample.world true [Sample.dev; Sample.prod])
      = (Ok (Some "0f8fad5b"), w1) ∧
    @getAccountAndEnvironmentBySecretKey Sample.cloud "sk-dev" w1
      = (Ok (Some (Sample.acme, v1)), w2) ∧
    Environment.id v1 = 1 ∧
    Environment.secret_key v1 = Some "sk-dev" ∧
    Environment.pending_secret_key v1 = Some "0f8fad5b" ∧
    @getAccountAndEnvironmentBySecretKey Sample.cloud "0f8fad5b" w1 = (Ok None, w3).
Proof.
  apply (@rotate_keeps_authenticating Sample.cloud
           (Sample.world true [Sample.dev; Sample.prod]) 1 Sample.dev _ "sk-dev" Sample.acme
           sample_roundtrip_cloud (sample_cache_sound _ _ _) eq_refl eq_refl eq_refl
           eq_refl eq_refl eq_refl).
  - intros [H _]. discriminate H.
  - intros [H _]. discriminate H.
  - sample_rows; [intros H; by destruct H|intros _; vm_compute; discriminate].
  - sample_rows; vm_compute; discriminate.
Defined.

Lemma public_key_rotation_witness :
  exists w1 w2 v1 v2 row2,
    @rotateKey Sample.cloud 1 "public" (Sample.world true [Sample.dev; Sample.prod])
      = (Ok (Some "0f8fad5b"), w1) ∧
    (@getAccountAndEnvironmentByPublicKey Sample.cloud "0f8fad5b" w1).1 = Ok None ∧
    (@getAccountAndEnvironmentByPublicKey Sample.cloud "pk-dev" w1).1
      = Ok (Some (Sample.acme, v1)) ∧
    Environment.pending_public_key v1 = Some "0f8fad5b" ∧
    @activateKey Sample.cloud 1 "public" w1 = (Ok true, w2) ∧
    @row_of 1 w2 = Some row2 ∧
    Environment.public_key row2 = Some "0f8fad5b" ∧
    Environment.pending_public_key row2 = None ∧
    Environment.secret_key row2 = Some "#sk-dev" ∧
    Environment.secret_key_hashed row2 = Some "H(sk-dev,master)" ∧
    (@getAccountAndEnvironmentByPublicKey Sample.cloud "0f8fad5b" w2).1
      = Ok (Some (Sample.acme, v2)) ∧
    Environment.id v2 = 1 ∧
    (@getAccountAndEnvironmentByPublicKey Sample.cloud "pk-dev" w2).1 = Ok None.
Proof.
  eapply (@public_key_rotation Sample.cloud
           (Sample.world true [Sample.dev; Sample.prod]) 1 Sample.dev _ "pk-dev" Sample.acme
           eq_refl eq_refl).
  - sample_rows; [done|intros H; discriminate H].
  - reflexivity.
  - reflexivity.
  - vm_compute. discriminate.
  - reflexivity.
  - intros [H _]. discriminate H.
  - intros [H _]. discriminate H.
  - sample_rows; [intros H; by destruct H|intros _; split; vm_compute; discriminate].
Defined.

Lemma override_reaches_lowercase_names_witness :
  exists d,
    (@getAccountAndEnvironmentBySecretKey Sample.selfHosted "abc123"
       (Sample.world true [Sample.dev; Sample.prod])).1 = Ok (Some (Sample.acme, d)) ∧
    JsString.toLowerCase (Environment.name d) = Environment.name d ∧
    Environment.name d = "dev".
Proof.
  eexists. split; [vm_compute; reflexivity|].
  refine (@override_reaches_lowercase_names Sample.selfHosted
            (Sample.world true [Sample.dev; Sample.prod]) _ "abc123" "NANGO_SECRET_KEY_DEV"
            Sample.acme _ eq_refl eq_refl _).
  vm_compute. reflexivity.
Defined.

Lemma created_environment_witness :
  exists w' row env,
    @createEnvironment Sample.cloud SampleSchema.schema 2 "staging"
      (Sample.world true [Sample.dev; Sample.prod]) = (Ok (Some env), w') ∧
    environments w' = [Sample.dev; Sample.prod; row] ∧
    writes w' = [(3, WholeRow row)] ∧
    @decrypted_view Sample.cloud row = Some env ∧
    Environment.account_id row = 2 ∧
    Environment.name row = "staging" ∧
    Environment.secret_key env = Some (Sample.uuid_v4 5) ∧
    Environment.secret_key_hashed row = Some (@digest Sample.cloud (Sample.uuid_v4 5)).
Proof.
  exact (@created_environment Sample.cloud SampleSchema.schema
           (Sample.world true [Sample.dev; Sample.prod]) 2 "staging" _ _
           sample_roundtrip_cloud eq_refl eq_refl eq_refl eq_refl).
Defined.

Lemma created_environment_authenticates_witness :
  exists w' w'' env,
    @createEnvironment Sample.cloud SampleSchema.schema 2 "staging"
      (Sample.world true [Sample.dev; Sample.prod]) = (Ok (Some env), w') ∧
    (@getById Sample.cloud 3 w').1 = Ok (Some env) ∧
    @getAccountAndEnvironmentBySecretKey Sample.cloud (Sample.uuid_v4 5) w'
      = (Ok (Some (Sample.globex, env)), w'').
Proof.
  apply (@created_environment_authenticates Sample.cloud SampleSchema.schema
           (Sample.world true [Sample.dev; Sample.prod]) 2 "staging" _ _ Sample.globex
           sample_roundtrip_cloud (sample_cache_sound _ _ _) eq_refl eq_refl eq_refl
           eq_refl eq_refl).
  - intros [H _]. discriminate H.
  - sample_rows; vm_compute; discriminate.
Defined.

Lemma default_environments_witness :
  exists w' prod dev,
    @createDefaultEnvironments Sample.cloud SampleSchema.schema 1
      (Sample.world true [Sample.dev]) = (Ok tt, w') ∧
    environments w' = [Sample.dev; prod; dev] ∧
    (getEnvironmentsByAccountId 1 w').1 = Ok ["dev"; "prod"; "dev"].
Proof.
  destruct (@default_environments Sample.cloud SampleSchema.schema
              (Sample.world true [Sample.dev]) 1
              sample_roundtrip_cloud sample_schema_fresh sample_schema_readable eq_refl)
    as (w' & prod & dev & _ & _ & _ & _ & names & Hrun & Henvs & _ & _ & _ & _ & _ & _ & _
        & _ & _ & _ & Hbefore & Hafter).
  exists w', prod, dev. split; [exact Hrun|]. split; [exact Henvs|].
  rewrite Hafter. vm_compute in Hbefore. by injection Hbefore as <-.
Defined.

Lemma reads_by_id_agree_witness :
  (getEnvironmentName 2 (Sample.world true [Sample.dev; Sample.prod])).1
    = Ok (Some "prod") ∧
  (getAccountIdFromEnvironment 2
     (Sample.world true [Sample.dev; Sample.prod])).1 = Ok (Some 2).
Proof.
  destruct (@reads_by_id_agree Sample.cloud
              (Sample.world true [Sample.dev; Sample.prod]) 2 eq_refl)
    as (r & Hraw & _ & Hname & Hacc & _).
  vm_compute in Hraw. injection Hraw as <-. split; [exact Hname|exact Hacc].
Defined.

Lemma resolved_account_agrees_witness :
  (getAccountFromEnvironment 2
     (Sample.world true [Sample.dev; Sample.prod])).1 = Ok (Some Sample.globex) ∧
  (getAccountIdFromEnvironment 2
     (Sample.world true [Sample.dev; Sample.prod])).1 = Ok (Some 2).
Proof.
  refine (@resolved_account_agrees Sample.cloud
            (Sample.world true [Sample.dev; Sample.prod]) _ "sk-prod" Sample.globex
            (Environment.set_secret (Some "sk-prod") (Some "iv") (Some "tag") Sample.prod)
            _ _).
  - vm_compute. reflexivity.
  - intros e e' He He'. revert e' He'. revert e He.
    sample_rows; sample_rows; intros H; try done; discriminate H.
Defined.

Lemma assuming_prod_agrees_witness :
  (getEnvironmentIdForAccountAssumingProd 2
     (Sample.world true [Sample.dev; Sample.prod])).1 = Ok (Some 2) ∧
  (getEnvironmentIdForAccountAssumingProd 1
     (Sample.world true [Sample.dev; Sample.prod])).1 = Ok None.
Proof.
  split.
  - eapply (proj1 (@assuming_prod_agrees Sample.cloud
                     (Sample.world true [Sample.dev; Sample.prod]) 2 eq_refl)
              (Environment.set_secret (Some "sk-prod") (Some "iv") (Some "tag") Sample.prod)).
    vm_compute. reflexivity.
  - apply (proj2 (@assuming_prod_agrees Sample.cloud
                    (Sample.world true [Sample.dev; Sample.prod]) 1 eq_refl)).
    sample_rows; intros [H1 H2]; discriminate.
Defined.

Lemma undecryptable_row_witness :
  getRawById 3 (Sample.world true [Sample.dev; Fixtures.tampered])
    = (Ok (Some Fixtures.tampered),
       counted (Sample.world true [Sample.dev; Fixtures.tampered])) ∧
  (@getById Sample.cloud 3 (Sample.world true [Sample.dev; Fixtures.tampered])).1 = Ok None ∧
  (@activateKey Sample.cloud 3 "secret"
     (Sample.world true [Sample.dev; Fixtures.tampered])).1 = Throw DecryptionFailure.
Proof.
  destruct (@undecryptable_row Sample.cloud
              (Sample.world true [Sample.dev; Fixtures.tampered]) 3 Fixtures.tampered
              eq_refl eq_refl eq_refl)
    as (H1 & H2 & _ & _ & _ & _ & H7).
  split; [exact H1|]. split; [by rewrite H2|by rewrite H7].
Defined.

Lemma edit_replaces_variables_witness :
  EnvironmentVariable.name <$>
    filter (fun var => EnvironmentVariable.environment_id var = 1)
      (variables (@editEnvironmentVariable Sample.cloud Fixtures.driver 1
                    [("REGION", "ap"); ("PLAN", "pro")] Fixtures.vault).2)
    = ["REGION"; "PLAN"] ∧
  filter (fun var => EnvironmentVariable.environment_id var ≠ 1)
    (variables (@editEnvironmentVariable Sample.cloud Fixtures.driver 1
                  [("REGION", "ap"); ("PLAN", "pro")] Fixtures.vault).2)
    = [Fixtures.variable 2 "REGION" "us"].
Proof.
  destruct (@edit_replaces_variables Sample.cloud Fixtures.driver Fixtures.vault 1
              [("REGION", "ap"); ("PLAN", "pro")] eq_refl)
    as (Hothers & Hnames & _).
  split; [exact Hnames|exact Hothers].
Defined.

Lemma variables_round_trip_witness :
  exists rows,
    (@getEnvironmentVariables Sample.cloud 1
       (@editEnvironmentVariable Sample.cloud Fixtures.driver 1
          [("REGION", "ap"); ("PLAN", "pro")] Fixtures.vault).2).1 = Ok rows ∧
    (fun x => (EnvironmentVariable.name x, EnvironmentVariable.value x)) <$> rows
      = [("REGION", "ap"); ("PLAN", "pro")] ∧
    Forall (fun x => EnvironmentVariable.environment_id x = 1) rows.
Proof.
  exact (@variables_round_trip Sample.cloud Fixtures.driver Fixtures.vault 1
           [("REGION", "ap"); ("PLAN", "pro")] sample_roundtrip_cloud eq_refl).
Defined.

Lemma cache_sound_resolve_witness :
  @cache_sound Sample.cloud
    (@getAccountAndEnvironmentBySecretKey Sample.cloud "sk-dev"
       (Sample.world true [Sample.dev; Sample.prod])).2.
Proof.
  exact (@cache_sound_resolve Sample.cloud (Sample.world true [Sample.dev; Sample.prod])
           "sk-dev" (sample_cache_sound _ _ _)).
Defined.
